(** * A shallow embedding of [src/matrix.ts]

    The class [Matrix] wraps a JavaScript array of row arrays.  Arrays are
    objects with identity: several indices of the outer array, several
    matrices, or a caller's variable can all designate one and the same row
    array.  The embedding therefore keeps every array in an explicit store
    and lets a matrix be a reference into it.

    - cells are JavaScript numbers, i.e. binary64 floats ([PrimFloat.float]);
      a read outside an array yields [undefined], so array elements and
      read results have type [value = option float];
    - row arrays live in [rowsH], outer arrays (arrays of row references)
      in [dataH]; the TypeScript types keep the two kinds apart;
    - a method is a function in the monad [M] of state and exceptions;
    - row and column indices and the dimensions given to the factories
      are natural numbers (a negative or fractional index is in no array,
      and takes the path of an index past the end); the exponent of [pow]
      is an integer;
    - [mults] counts the completed calls of [multiply]; it is
      instrumentation only and no method reads it. *)

From Stdlib Require Import Floats ZArith Lia.
From stdpp Require Import gmap strings list.

Open Scope string_scope.

(** ** Values, store, outcomes *)

Definition value := option float.
Definition undefined : value := None.

(** [ToNumber]: [undefined] becomes [NaN], a number is itself. *)
Definition to_number (v : value) : float := default nan v.

Definition loc := nat.

Record heap := Heap {
  rowsH : gmap loc (list value);
  dataH : gmap loc (list loc);
  mults : nat
}.

(** [Stuck] marks a read through a reference that the store does not hold.
    JavaScript has no dangling references; the constructor only makes the
    store lookups total and is never produced on a well-formed store. *)
Inductive error :=
| RangeError (msg : string)
| TypeError (msg : string)
| Stuck.

(** [Fuel h] is the outcome of a loop that was cut off after the allotted
    number of iterations, in store [h]; only [pow] can produce it. *)
Inductive outcome (A : Type) :=
| Val (a : A) (h : heap)
| Exn (e : error)
| Fuel (h : heap).
Arguments Val {A} a h.
Arguments Exn {A} e.
Arguments Fuel {A} h.

Definition M (A : Type) : Type := heap -> outcome A.

Definition ret {A} (a : A) : M A := fun h => Val a h.

Definition bind {A B} (m : M A) (k : A -> M B) : M B :=
  fun h =>
    match m h with
    | Val a h' => k a h'
    | Exn e => Exn e
    | Fuel h' => Fuel h'
    end.

Definition throw {A} (e : error) : M A := fun _ => Exn e.

Declare Scope js_scope.
Delimit Scope js_scope with js.
Notation "'let*' x ':=' m 'in' k" := (bind m (fun x => k))
  (at level 10, x pattern, m at level 100, k at level 200,
   format "'[v' 'let*'  x  ':='  m  'in' '/' k ']'") : js_scope.
Notation "m '>>' k" := (bind m (fun _ => k))
  (at level 100, k at level 200, right associativity) : js_scope.
Open Scope js_scope.

(** ** Store primitives *)

Definition read_row (a : loc) : M (list value) :=
  fun h => match rowsH h !! a with
           | Some l => Val l h
           | None => Exn Stuck
           end.

Definition read_data (d : loc) : M (list loc) :=
  fun h => match dataH h !! d with
           | Some l => Val l h
           | None => Exn Stuck
           end.

Definition write_row (a : loc) (l : list value) : M unit :=
  fun h => Val tt (Heap (<[a := l]> (rowsH h)) (dataH h) (mults h)).

(** [new Array(...)] for a row array: a fresh reference. *)
Definition alloc_row (l : list value) : M loc :=
  fun h => let a := fresh (dom (rowsH h)) in
           Val a (Heap (<[a := l]> (rowsH h)) (dataH h) (mults h)).

(** [new Array(...)] for an outer array. *)
Definition alloc_data (l : list loc) : M loc :=
  fun h => let d := fresh (dom (dataH h)) in
           Val d (Heap (rowsH h) (<[d := l]> (dataH h)) (mults h)).

(** [outer[i] = ref] on an outer array, once the new list of its slots is
    known. *)
Definition write_data (d : loc) (l : list loc) : M unit :=
  fun h => Val tt (Heap (rowsH h) (<[d := l]> (dataH h)) (mults h)).

Definition tick : M unit :=
  fun h => Val tt (Heap (rowsH h) (dataH h) (S (mults h))).

(** [arr[i]]: the element, or [undefined] outside the array. *)
Definition index (l : list value) (i : nat) : value := mjoin (l !! i).

(** [arr[i] = v].  Inside the array the element is replaced.  At
    [i = length] JavaScript appends.  Further out it would leave holes;
    the padding below stands for them, and no caller in this file reaches
    that case ([put] checks its bounds, [addRow] walks upwards from 0). *)
Definition array_set (l : list value) (i : nat) (v : value) : list value :=
  if decide (i < length l) then <[i := v]> l
  else l ++ replicate (i - length l) undefined ++ [v].

(** [for (let i = 0; i < n; i++) body(i)] for a bound [n] that the body
    does not change. *)
Fixpoint for_each {A} (l : list A) (body : A -> M unit) : M unit :=
  match l with
  | [] => ret tt
  | x :: l' => body x >> for_each l' body
  end.

Definition for_upto (n : nat) (body : nat -> M unit) : M unit :=
  for_each (seq 0 n) body.

(** [arr.map(f)] for a function that may read the store: the results in
    order. *)
Fixpoint collect {A B} (l : list A) (f : A -> M B) : M (list B) :=
  match l with
  | [] => ret []
  | x :: l' => let* y := f x in let* ys := collect l' f in ret (y :: ys)
  end.

(** [seq[i] = v], as a caller writes into an array it was handed. *)
Definition assign (a : loc) (i : nat) (v : float) : M unit :=
  let* l := read_row a in
  write_row a (array_set l i (Some v)).

(** ** The class [Matrix] *)

Module Matrix.

(** A matrix object holds one readonly field, the reference [data] to its
    outer array.  The wrapper object itself carries no other state, so it
    is represented by that reference: two wrappers of one outer array are
    the same matrix here. *)
Record t := Build { data : loc }.

(** [MatrixLike]: raw contents (an array) or a matrix. *)
Inductive MatrixLike :=
| Contents (d : loc)
| Like (m : t).

(** [constructor(data)]: an array is adopted as it is, a matrix shares its
    [data]; nothing is copied. *)
Definition construct (x : MatrixLike) : t :=
  match x with
  | Contents d => Build d
  | Like m => Build (data m)
  end.

Definition from (x : MatrixLike) : t := construct x.

(** [new Matrix([[..], [..]])] with array literals: every inner literal is
    an array of its own. *)
Definition literal (rows : list (list float)) : M t :=
  let* refs := collect rows (fun r => alloc_row (Some <$> r)) in
  let* d := alloc_data refs in
  ret (construct (Contents d)).

Definition rowCount (this : t) : M nat :=
  let* d := read_data (data this) in
  ret (length d).

(** [this.data.at(0)!.length]: with no row 0 this is a property read on
    [undefined]. *)
Definition columnCount (this : t) : M nat :=
  let* d := read_data (data this) in
  match d !! 0 with
  | None => throw (TypeError "Cannot read properties of undefined")
  | Some a => let* l := read_row a in ret (length l)
  end.

Definition get (this : t) (row column : nat) : M value :=
  let* d := read_data (data this) in
  match d !! row with
  | None => throw (RangeError "Out of bounds")
  | Some a =>
      let* l := read_row a in
      match l !! column with
      | None => throw (RangeError "Out of bounds")
      | Some v => ret v
      end
  end.

Definition put (this : t) (row column : nat) (v : float) : M t :=
  let* d := read_data (data this) in
  match d !! row with
  | None => throw (RangeError "Out of bounds")
  | Some a =>
      let* l := read_row a in
      match l !! column with
      | None => throw (RangeError "Out of bounds")
      | Some _ => write_row a (array_set l column (Some v)) >> ret this
      end
  end.

(** The loop bounds [this.rowCount] and [this.columnCount] are read again
    at every test in the source; no callback of this class resizes the
    receiver, so the row count is read once and the column count once per
    row.  The column count is only read when there is a row to visit. *)
Definition forEach (this : t) (callback : value -> nat -> nat -> M unit) : M t :=
  let* rc := rowCount this in
  for_upto rc (fun x =>
    let* cc := columnCount this in
    for_upto cc (fun y =>
      let* v := get this x y in
      callback v x y)) >>
  ret this.

(** [new Array(rows).fill(new Array(columns).fill(0))]: the argument of the
    outer [fill] is evaluated once, so one row array is created and every
    slot of the outer array receives a reference to it. *)
Definition empty (rows columns : nat) : M t :=
  let* a := alloc_row (replicate columns (Some 0%float)) in
  let* d := alloc_data (replicate rows a) in
  ret (from (Contents d)).

Definition map (this : t) (callback : value -> nat -> nat -> M float) : M t :=
  let* rc := rowCount this in
  let* cc := columnCount this in
  let* id := empty rc cc in
  forEach this (fun v x y =>
    let* w := callback v x y in
    put id x y w >> ret tt) >>
  ret id.

(** [add] maps over [id], the matrix it has just created, and not over
    [this]: the callback's [v] is a cell of [id]. *)
Definition add (this : t) (matrix : MatrixLike) : M t :=
  let matrix := from matrix in
  let* r1 := rowCount this in
  let* r2 := rowCount matrix in
  if decide (r1 ≠ r2) then throw (RangeError "Matricies must be the same size")
  else
    let* c1 := columnCount this in
    let* c2 := columnCount matrix in
    if decide (c1 ≠ c2) then throw (RangeError "Matricies must be the same size")
    else
      let* rc := rowCount this in
      let* cc := columnCount this in
      let* id := empty rc cc in
      map id (fun v x y =>
        let* w := get matrix x y in
        ret (to_number v + to_number w)%float).

Definition scalar (this : t) (k : float) : M t :=
  map this (fun content _ _ => ret (k * to_number content)%float).

(** [this.data[row]]: the row array itself, or [undefined]. *)
Definition row (this : t) (r : nat) : M (option loc) :=
  let* d := read_data (data this) in
  ret (d !! r).

(** [this.data.map((x) => x[column])]: a new array. *)
Definition column (this : t) (c : nat) : M loc :=
  let* d := read_data (data this) in
  let* cells := collect d (fun x => let* l := read_row x in ret (index l c)) in
  alloc_row cells.

(** [this.data[r]], for a read that goes on to index the row. *)
Definition row_of (this : t) (r : nat) : M (list value) :=
  let* d := read_data (data this) in
  match d !! r with
  | None => throw (TypeError "Cannot read properties of undefined")
  | Some a => read_row a
  end.

(** [acc += term(i)] for the indices of [l] in order. *)
Fixpoint accumulate (l : list nat) (acc : float) (term : nat -> M float) : M float :=
  match l with
  | [] => ret acc
  | i :: l' => let* x := term i in accumulate l' (acc + x)%float term
  end.

(** The cell loop of [multiply]: [m[r][c] = 0] and then, for [i] below
    [ac], [m[r][c] += this.data[r][i] * matrix.data[i][c]]. *)
Definition product_cell (this matrix : t) (ac r c : nat) : M float :=
  accumulate (seq 0 ac) 0%float (fun i =>
    let* ra := row_of this r in
    let* rb := row_of matrix i in
    ret (to_number (index ra i) * to_number (index rb c))%float).

(** The source creates the outer array and each row array empty and fills
    them cell by cell; nothing else can reach them before [multiply]
    returns, so each row is stored here once its cells are computed. *)
Definition multiply (this : t) (matrix : MatrixLike) : M t :=
  let matrix := from matrix in
  let* c1 := columnCount this in
  let* r2 := rowCount matrix in
  if decide (c1 ≠ r2)
  then throw (RangeError "Matricies are ineligible for multiplication")
  else
    let* ar := rowCount this in
    let* ac := columnCount this in
    let* bc := columnCount matrix in
    let* m := collect (seq 0 ar) (fun r =>
      let* cells := collect (seq 0 bc) (fun c =>
        let* x := product_cell this matrix ac r c in ret (Some x)) in
      alloc_row cells) in
    let* d := alloc_data m in
    tick >> ret (from (Contents d)).

Definition determinant (this : t) : M value :=
  let* rc := rowCount this in
  let* cc := columnCount this in
  if decide (rc ≠ cc) then throw (RangeError "Matrix must be square")
  else
    let* size := rowCount this in
    match size with
    | 0 => ret (Some nan)
    | 1 => get this 0 0
    | 2 =>
        let* a := get this 0 0 in
        let* d := get this 1 1 in
        let* b := get this 0 1 in
        let* c := get this 1 0 in
        ret (Some (to_number a * to_number d - to_number b * to_number c)%float)
    | _ => ret (Some 0%float)
    end.

(** [while (--amount) id = id.multiply(this)].  [amount] is an integer
    (below 2^53, where [--] is exact).  Every test of the loop condition
    takes one unit of [fuel]; the condition holds for every number other
    than 0. *)
Fixpoint pow_loop (fuel : nat) (this id : t) (amount : Z) : M t :=
  match fuel with
  | O => fun h => Fuel h
  | S fuel' =>
      let amount := (amount - 1)%Z in
      if decide (amount = 0%Z) then ret id
      else
        let* id' := multiply id (Like this) in
        pow_loop fuel' this id' amount
  end.

Definition pow (fuel : nat) (this : t) (amount : Z) : M t :=
  let* rc := rowCount this in
  let* cc := columnCount this in
  if decide (rc ≠ cc) then throw (RangeError "Matricies must be square")
  else pow_loop fuel this this amount.

(** [addRow({ manipulated, row2: [r2, multiplyfact] })].  The scaled copy
    of row [r2] is computed before the loop; the manipulated row is
    written in place. *)
Definition addRow (this : t) (manipulated r2 : nat) (multiplyfact : float) : M unit :=
  let* rowManipulated := row this manipulated in
  let* source := row this r2 in
  match source with
  | None => throw (TypeError "Cannot read properties of undefined")
  | Some b =>
      let* src := read_row b in
      let byRowxFactor := (fun n => (to_number n * multiplyfact)%float) <$> src in
      for_upto (length byRowxFactor) (fun i =>
        match rowManipulated with
        | None => throw (TypeError "Cannot read properties of undefined")
        | Some a =>
            let* l := read_row a in
            write_row a
              (array_set l i
                 (Some (to_number (index l i) + default nan (byRowxFactor !! i))%float))
        end)
  end.

(** [multiplyRow(row1, mul)]: [row.map(r => r * mul)] is a new array, and
    slot [row1] of the outer array is made to refer to it; the array that
    the slot referred to is not written. *)
Definition multiplyRow (this : t) (row1 : nat) (mul : float) : M unit :=
  let* r := row this row1 in
  match r with
  | None => throw (TypeError "Cannot read properties of undefined")
  | Some a =>
      let* l := read_row a in
      let* updatedRow := alloc_row ((fun r => Some (to_number r * mul)%float) <$> l) in
      let* d := read_data (data this) in
      write_data (data this) (<[row1 := updatedRow]> d)
  end.

(** [permute(row1, row2)]: the two slots of the outer array exchange their
    references; no row array is read or written.  With an index outside
    the outer array the source stores [undefined] in a slot and may
    lengthen the outer array; an outer array of this store holds row
    references only, so that case is outside the model: it ends in
    [Stuck], and nothing is stated about it. *)
Definition permute (this : t) (row1 row2 : nat) : M unit :=
  let* temp := row this row1 in
  let* d := read_data (data this) in
  match temp, d !! row2 with
  | Some a, Some b =>
      write_data (data this) (<[row1 := b]> d) >>
      let* d' := read_data (data this) in
      write_data (data this) (<[row2 := a]> d')
  | _, _ => throw Stuck
  end.

(** [identity(size)]: the callback is [(_, x, y) => (x === y ? 1 : 0)]. *)
Definition identity (size : nat) : M t :=
  let* id := empty size size in
  map id (fun _ x y => ret (if decide (x = y) then 1 else 0)%float).

End Matrix.

(** ** Observations and specifications *)

(** The store before anything is allocated. *)
Definition init : heap := Heap ∅ ∅ 0.

(** What a caller sees of an outcome: the returned value or the exception
    thrown, without the store. *)
Definition result {A} (o : outcome A) : option (A + error) :=
  match o with
  | Val a _ => Some (inl a)
  | Exn e => Some (inr e)
  | Fuel _ => None
  end.

(** What [get(r, c)] yields in store [h], as a function of the store. *)
Definition peek (h : heap) (m : Matrix.t) (r c : nat) : value + error :=
  match dataH h !! Matrix.data m with
  | None => inr Stuck
  | Some d =>
      match d !! r with
      | None => inr (RangeError "Out of bounds")
      | Some a =>
          match rowsH h !! a with
          | None => inr Stuck
          | Some l =>
              match l !! c with
              | None => inr (RangeError "Out of bounds")
              | Some v => inl v
              end
          end
      end
  end.

(** The cells of a matrix, row by row, as the store has them. *)
Definition contents (h : heap) (m : Matrix.t) : option (list (list value)) :=
  d ← dataH h !! Matrix.data m; mapM (fun a => rowsH h !! a) d.

(** [h'] has every array of [h], unchanged, and possibly more. *)
Definition extends (h h' : heap) : Prop :=
  rowsH h ⊆ rowsH h' ∧ dataH h ⊆ dataH h'.

(** Every slot of the outer array of [m] holds the same row array. *)
Definition shared_rows (h : heap) (m : Matrix.t) : Prop :=
  ∃ n a, dataH h !! Matrix.data m = Some (replicate n a).

(** Any two rows of [m] read the same in every column. *)
Definition rows_equal (h : heap) (m : Matrix.t) : Prop :=
  ∀ n r1 r2 c, Matrix.rowCount m h = Val n h → r1 < n → r2 < n →
    Matrix.get m r1 c h = Matrix.get m r2 c h.

(** A computation that leaves every outer array as it is (it may still
    write cells and create row arrays). *)
Definition keeps_data {A} (c : M A) : Prop :=
  ∀ h a h', c h = Val a h' → dataH h' = dataH h.

(** A callback that may read the store and throw, but writes nothing. *)
Definition read_only {A} (c : M A) : Prop :=
  ∀ h a h', c h = Val a h' → h' = h.

(** The squareness test of [pow] and [determinant] on the cells of a
    matrix: [rowCount] is the number of rows and [columnCount] the length
    of row 0; the other rows are not looked at.  A matrix without rows has
    no column count, so a square matrix has at least one row. *)
Definition square (A : list (list value)) : Prop :=
  ∃ l, A !! 0 = Some l ∧ length l = length A.

(** The matrix product on cell lists, as a mathematical reference: cell
    [(r, c)] is the sum over [i < ac], in ascending order from 0, of
    [A[r][i] * B[i][c]], where [ac] is the length of row 0 of [A] and the
    result has as many columns as row 0 of [B]. *)
Definition dot (ra : list value) (B : list (list value)) (ac c : nat) : float :=
  foldl (fun acc i =>
           (acc + to_number (index ra i) * to_number (index (B !!! i) c))%float)
        0%float (seq 0 ac).

Definition mmul (A B : list (list value)) : list (list value) :=
  let ac := length (A !!! 0) in
  let bc := length (B !!! 0) in
  (fun ra => (fun c => Some (dot ra B ac c)) <$> seq 0 bc) <$> A.

(** [A] multiplied on the right by itself [k] times: the product of
    [k + 1] copies of [A], associated to the left. *)
Fixpoint mpow (A : list (list value)) (k : nat) : list (list value) :=
  match k with
  | 0 => A
  | S k' => mmul (mpow A k') A
  end.

(** The store in which [map] runs its loop after it was called in [h] on
    a receiver of [n] rows: [Matrix.empty] has added one row array, which
    now holds [l], and one outer array whose [n] slots all refer to it. *)
Definition map_store (h : heap) (n : nat) (l : list value) : heap :=
  Heap (<[fresh (dom (rowsH h)) := l]> (rowsH h))
       (<[fresh (dom (dataH h)) := replicate n (fresh (dom (rowsH h)))]> (dataH h))
       (mults h).

(** What the callback makes of row [x] of the receiver: cell [j] is
    [f v x j] for the cell [v] at [(x, j)], for [j] below [cc]. *)
Definition map_row (f : value → nat → nat → float) (A : list (list value))
    (cc x : nat) : list value :=
  (fun j => Some (f ((A !!! x) !!! j) x j)) <$> seq 0 cc.

(** Row [lm] after [k] times row [ls] has been added to it, cell by cell,
    for the cells that [ls] has. *)
Definition row_plus (lm ls : list value) (k : float) : list value :=
  (fun j => Some (to_number (index lm j) + to_number (index ls j) * k)%float)
    <$> seq 0 (length ls).

(** The cells that [forEach] visits, in the order of the visits, each with
    its coordinates: row after row, and in a row the columns below [cc]. *)
Definition row_major (A : list (list value)) (cc : nat) : list (value * nat * nat) :=
  x ← seq 0 (length A); (fun y => ((A !!! x) !!! y, x, y)) <$> seq 0 cc.

(** No two slots of the outer array of [m] hold the same row array. *)
Definition distinct_rows (h : heap) (m : Matrix.t) : Prop :=
  ∃ d, dataH h !! Matrix.data m = Some d ∧ NoDup d.

(** A store holding the matrix [[1, 2], [3, 4]] of the driver
    [src/index.ts], and that matrix. *)
Definition store22 : heap :=
  Heap {[ 0 := [Some 1%float; Some 2%float];
          1 := [Some 3%float; Some 4%float] ]}
       {[ 0 := [0; 1] ]} 0.
Definition m22 : Matrix.t := Matrix.Build 0.
Definition cells22 : list (list value) :=
  [[Some 1%float; Some 2%float]; [Some 3%float; Some 4%float]].

(** A store with that matrix and, as [m12], the 1 x 2 matrix [[1, 2]]
    over the same first row array; [m0] is a matrix without rows. *)
Definition store_two : heap :=
  Heap {[ 0 := [Some 1%float; Some 2%float];
          1 := [Some 3%float; Some 4%float] ]}
       {[ 0 := [0; 1]; 1 := [0]; 2 := [] ]} 0.
Definition m12 : Matrix.t := Matrix.Build 1.
Definition m0 : Matrix.t := Matrix.Build 2.

(** A store with the ragged matrix [[1], [2, 3]]: its row 1 is longer than
    its row 0. *)
Definition store_ragged : heap :=
  Heap {[ 0 := [Some 1%float];
          1 := [Some 2%float; Some 3%float] ]}
       {[ 0 := [0; 1] ]} 0.
Definition m_ragged : Matrix.t := Matrix.Build 0.
Definition cells_ragged : list (list value) :=
  [[Some 1%float]; [Some 2%float; Some 3%float]].

(** A store with the 3 x 3 matrix [[1, 0, 0], [0, 1, 0], [0, 0, 1]]. *)
Definition store33 : heap :=
  Heap {[ 0 := [Some 1%float; Some 0%float; Some 0%float];
          1 := [Some 0%float; Some 1%float; Some 0%float];
          2 := [Some 0%float; Some 0%float; Some 1%float] ]}
       {[ 0 := [0; 1; 2] ]} 0.
Definition cells33 : list (list value) :=
  [[Some 1%float; Some 0%float; Some 0%float];
   [Some 0%float; Some 1%float; Some 0%float];
   [Some 0%float; Some 0%float; Some 1%float]].

Close Scope string_scope.

(** ** Stepping through the monad *)

Lemma bind_step {A B} (m : M A) (k : A → M B) h a h1 :
  m h = Val a h1 → bind m k h = k a h1.
Proof. unfold bind. by intros ->. Qed.

Lemma bind_inv {A B} (m : M A) (k : A → M B) h b h2 :
  bind m k h = Val b h2 → ∃ a h1, m h = Val a h1 ∧ k a h1 = Val b h2.
Proof. unfold bind. destruct (m h); naive_solver. Qed.

Lemma read_data_run h d l :
  dataH h !! d = Some l → read_data d h = Val l h.
Proof. unfold read_data. by intros ->. Qed.

Lemma read_row_run h a l :
  rowsH h !! a = Some l → read_row a h = Val l h.
Proof. unfold read_row. by intros ->. Qed.

Lemma array_set_lookup l i v : array_set l i v !! i = Some v.
Proof.
  unfold array_set. case_decide as Hi.
  - by apply list_lookup_insert_eq.
  - rewrite lookup_app_r by lia.
    rewrite lookup_app_r; rewrite length_replicate; [|lia].
    by replace (i - length l - (i - length l)) with 0 by lia.
Qed.

Lemma array_set_inside l i v :
  i < length l → array_set l i v = <[i := v]> l.
Proof. unfold array_set. intros Hi. by rewrite decide_True. Qed.

(** ** [get] and [put] on a given store *)

Lemma get_run h m d a l r c v :
  dataH h !! Matrix.data m = Some d → d !! r = Some a →
  rowsH h !! a = Some l → l !! c = Some v →
  Matrix.get m r c h = Val v h.
Proof.
  intros Hd Hr Ha Hc. unfold Matrix.get.
  rewrite (bind_step _ _ _ _ _ (read_data_run _ _ _ Hd)), Hr.
  by rewrite (bind_step _ _ _ _ _ (read_row_run _ _ _ Ha)), Hc.
Qed.

Lemma put_run h m d a l r c v :
  dataH h !! Matrix.data m = Some d → d !! r = Some a →
  rowsH h !! a = Some l → c < length l →
  Matrix.put m r c v h =
    Val m (Heap (<[a := <[c := Some v]> l]> (rowsH h)) (dataH h) (mults h)).
Proof.
  intros Hd Hr Ha Hc. unfold Matrix.put.
  rewrite (bind_step _ _ _ _ _ (read_data_run _ _ _ Hd)), Hr.
  rewrite (bind_step _ _ _ _ _ (read_row_run _ _ _ Ha)).
  destruct (lookup_lt_is_Some_2 l c Hc) as [w ->].
  unfold bind, write_row, ret. by rewrite array_set_inside.
Qed.

(** Whatever [put] returns, it has written through the row reference in
    slot [r]: the store differs in that one row array and nowhere else. *)
Lemma put_inv h m r c v m' h' :
  Matrix.put m r c v h = Val m' h' →
  m' = m ∧ ∃ d a l,
    dataH h !! Matrix.data m = Some d ∧ d !! r = Some a ∧
    rowsH h !! a = Some l ∧ c < length l ∧
    h' = Heap (<[a := <[c := Some v]> l]> (rowsH h)) (dataH h) (mults h).
Proof.
  unfold Matrix.put. intros H.
  apply bind_inv in H as (d & h1 & Hd & H).
  unfold read_data in Hd.
  destruct (dataH h !! Matrix.data m) as [d'|] eqn:Ed; [|done].
  injection Hd as <- <-.
  destruct (d' !! r) as [a|] eqn:Er; [|done].
  apply bind_inv in H as (l & h2 & Hl & H).
  unfold read_row in Hl. destruct (rowsH h !! a) as [l'|] eqn:Ea; [|done].
  injection Hl as <- <-.
  destruct (l' !! c) as [w|] eqn:Ec; [|done].
  assert (c < length l') as Hc by (by eapply lookup_lt_Some).
  rewrite array_set_inside in H by done.
  unfold bind, write_row, ret in H. injection H as <- <-.
  split; [done|]. by exists d', a, l'.
Qed.

(** After a [put], a [get] of the same cell returns the value put; this
    holds for every matrix, shared rows or not. *)
Lemma put_get_same h m r c v m' h' :
  Matrix.put m r c v h = Val m' h' →
  Matrix.get m' r c h' = Val (Some v) h'.
Proof.
  intros H. apply put_inv in H as (-> & d & a & l & Hd & Hr & Ha & Hc & ->).
  eapply get_run; simpl; eauto.
  - apply lookup_insert_eq.
  - by apply list_lookup_insert_eq.
Qed.

Lemma get_peek h m r c :
  Matrix.get m r c h =
    match peek h m r c with inl v => Val v h | inr e => Exn e end.
Proof.
  unfold Matrix.get, peek, bind, read_data, read_row, throw, ret.
  destruct (dataH h !! Matrix.data m) as [d|]; [|done].
  destruct (d !! r) as [a|]; [|done].
  destruct (rowsH h !! a) as [l|]; [|done].
  by destruct (l !! c).
Qed.

Lemma result_get h m r c : result (Matrix.get m r c h) = Some (peek h m r c).
Proof. rewrite get_peek. by destruct (peek h m r c). Qed.

(** A cell in another column, or in a row stored in another array, keeps
    its value across a [put]. *)
Lemma put_get_other h m r c v m' h' d r2 c2 :
  Matrix.put m r c v h = Val m' h' →
  dataH h !! Matrix.data m = Some d →
  d !! r2 ≠ d !! r ∨ c2 ≠ c →
  result (Matrix.get m' r2 c2 h') = result (Matrix.get m r2 c2 h).
Proof.
  intros H Hd Hne.
  apply put_inv in H as (-> & d' & a & l & Hd' & Hr & Ha & Hc & ->).
  assert (d' = d) as -> by congruence.
  rewrite !result_get. f_equal. unfold peek; simpl. rewrite Hd.
  destruct (d !! r2) as [a2|] eqn:Er2; [|done].
  destruct (decide (a2 = a)) as [->|Hna].
  - rewrite lookup_insert_eq, Ha.
    destruct Hne as [Hne|Hne]; [congruence|].
    by rewrite list_lookup_insert_ne.
  - by rewrite lookup_insert_ne.
Qed.

(** ** [Matrix.empty] *)

Lemma empty_run rows columns h :
  Matrix.empty rows columns h =
    Val (Matrix.Build (fresh (dom (dataH h))))
        (Heap (<[fresh (dom (rowsH h)) := replicate columns (Some 0%float)]> (rowsH h))
              (<[fresh (dom (dataH h)) := replicate rows (fresh (dom (rowsH h)))]> (dataH h))
              (mults h)).
Proof. reflexivity. Qed.

Lemma empty_shared rows columns h m h1 :
  Matrix.empty rows columns h = Val m h1 →
  ∃ a, dataH h1 !! Matrix.data m = Some (replicate rows a) ∧
       rowsH h1 !! a = Some (replicate columns (Some 0%float)).
Proof.
  rewrite empty_run. intros [= <- <-]. simpl.
  exists (fresh (dom (rowsH h))). by rewrite !lookup_insert_eq.
Qed.

(** On a matrix from [Matrix.empty], a [put] into any row is read back
    from every row. *)
Lemma empty_put_get rows columns h m h1 r c v r2 :
  Matrix.empty rows columns h = Val m h1 →
  r < rows → c < columns → r2 < rows →
  Matrix.get m r2 c h1 = Val (Some 0%float) h1 ∧
  ∃ h2, Matrix.put m r c v h1 = Val m h2 ∧
        Matrix.get m r2 c h2 = Val (Some v) h2.
Proof.
  intros He Hr Hc Hr2.
  destruct (empty_shared _ _ _ _ _ He) as (a & Hd & Ha).
  split.
  - eapply get_run; eauto; by apply lookup_replicate_2.
  - eexists. split.
    + eapply put_run; eauto; [by apply lookup_replicate_2|].
      by rewrite length_replicate.
    + eapply get_run; simpl; eauto.
      * by apply lookup_replicate_2.
      * apply lookup_insert_eq.
      * apply list_lookup_insert_eq. by rewrite length_replicate.
Qed.

(** ** Outer arrays are never rewritten by [forEach] and [map] *)

Lemma read_only_keeps_data {A} (c : M A) : read_only c → keeps_data c.
Proof. intros Hc h a h' H. by rewrite (Hc _ _ _ H). Qed.

Lemma keeps_data_ret {A} (a : A) : keeps_data (ret a).
Proof. by intros h b h' [= _ <-]. Qed.

Lemma keeps_data_bind {A B} (m : M A) (k : A → M B) :
  keeps_data m → (∀ a, keeps_data (k a)) → keeps_data (bind m k).
Proof.
  intros Hm Hk h b h' H.
  apply bind_inv in H as (a & h1 & H1 & H2).
  rewrite (Hk _ _ _ _ H2). eauto.
Qed.

Lemma keeps_data_for_each {A} (l : list A) (body : A → M unit) :
  (∀ x, keeps_data (body x)) → keeps_data (for_each l body).
Proof.
  intros Hb. induction l as [|x l IH]; simpl.
  - apply keeps_data_ret.
  - apply keeps_data_bind; auto.
Qed.

Lemma read_only_read_data d : read_only (read_data d).
Proof.
  intros h a h'. unfold read_data.
  destruct (dataH h !! d); [|done]. by intros [= _ <-].
Qed.

Lemma read_only_read_row a : read_only (read_row a).
Proof.
  intros h l h'. unfold read_row.
  destruct (rowsH h !! a); [|done]. by intros [= _ <-].
Qed.

Lemma read_only_ret {A} (a : A) : read_only (ret a).
Proof. by intros h b h' [= _ <-]. Qed.

Lemma read_only_throw {A} e : read_only (throw e : M A).
Proof. by intros h b h'. Qed.

Lemma read_only_bind {A B} (m : M A) (k : A → M B) :
  read_only m → (∀ a, read_only (k a)) → read_only (bind m k).
Proof.
  intros Hm Hk h b h' H.
  apply bind_inv in H as (a & h1 & H1 & H2).
  rewrite (Hk _ _ _ _ H2). eauto.
Qed.

Lemma read_only_rowCount m : read_only (Matrix.rowCount m).
Proof.
  apply read_only_bind; [apply read_only_read_data|].
  intros d. apply read_only_ret.
Qed.

Lemma read_only_columnCount m : read_only (Matrix.columnCount m).
Proof.
  apply read_only_bind; [apply read_only_read_data|].
  intros d. destruct (d !! 0) as [a|]; [|apply read_only_throw].
  apply read_only_bind; [apply read_only_read_row|].
  intros cells. apply read_only_ret.
Qed.

Lemma read_only_get m r c : read_only (Matrix.get m r c).
Proof.
  intros h v h'. rewrite get_peek.
  destruct (peek h m r c); [|done]. by intros [= _ <-].
Qed.

Lemma keeps_data_put m r c v : keeps_data (Matrix.put m r c v).
Proof.
  intros h m' h' H.
  by apply put_inv in H as (_ & d & a & l & _ & _ & _ & _ & ->).
Qed.

Lemma keeps_data_forEach m callback :
  (∀ v x y, keeps_data (callback v x y)) →
  keeps_data (Matrix.forEach m callback).
Proof.
  intros Hcb. unfold Matrix.forEach.
  apply keeps_data_bind; [apply read_only_keeps_data, read_only_rowCount|].
  intros rc. apply keeps_data_bind; [|intros; apply keeps_data_ret].
  apply keeps_data_for_each. intros x.
  apply keeps_data_bind; [apply read_only_keeps_data, read_only_columnCount|].
  intros cc. apply keeps_data_for_each. intros y.
  apply keeps_data_bind; [apply read_only_keeps_data, read_only_get|].
  auto.
Qed.

(** The matrix that [map] returns is the one it obtained from
    [Matrix.empty], with its outer array untouched: every slot still holds
    the one row array. *)
Lemma map_shared this callback h m' h' :
  (∀ v x y, read_only (callback v x y)) →
  Matrix.map this callback h = Val m' h' →
  shared_rows h' m'.
Proof.
  intros Hcb H. unfold Matrix.map in H.
  apply bind_inv in H as (rc & h1 & H1 & H).
  apply bind_inv in H as (cc & h2 & H2 & H).
  apply bind_inv in H as (id & h3 & H3 & H).
  apply bind_inv in H as (x & h4 & H4 & H).
  injection H as <- <-.
  destruct (empty_shared _ _ _ _ _ H3) as (a & Hd & _).
  exists rc, a. rewrite <- Hd. f_equal.
  revert H4. apply keeps_data_forEach. intros v i j.
  apply keeps_data_bind; [by apply read_only_keeps_data|].
  intros w. apply keeps_data_bind; [apply keeps_data_put|].
  intros. apply keeps_data_ret.
Qed.

Lemma shared_rows_equal h m : shared_rows h m → rows_equal h m.
Proof.
  intros (k & a & Hd) n r1 r2 c Hn Hr1 Hr2.
  unfold Matrix.rowCount in Hn.
  rewrite (bind_step _ _ _ _ _ (read_data_run _ _ _ Hd)) in Hn.
  injection Hn as Hn. rewrite length_replicate in Hn. subst k.
  rewrite !get_peek. unfold peek. rewrite Hd.
  by rewrite !lookup_replicate_2.
Qed.

Lemma identity_shared size h m' h' :
  Matrix.identity size h = Val m' h' → shared_rows h' m'.
Proof.
  unfold Matrix.identity. intros H.
  apply bind_inv in H as (id & h1 & _ & H).
  revert H. apply map_shared. intros; apply read_only_ret.
Qed.

Lemma scalar_shared this k h m' h' :
  Matrix.scalar this k h = Val m' h' → shared_rows h' m'.
Proof. apply map_shared. intros; apply read_only_ret. Qed.

Lemma add_shared this matrix h m' h' :
  Matrix.add this matrix h = Val m' h' → shared_rows h' m'.
Proof.
  unfold Matrix.add. intros H.
  apply bind_inv in H as (r1 & h1 & _ & H).
  apply bind_inv in H as (r2 & h2 & _ & H).
  case_decide; [done|].
  apply bind_inv in H as (c1 & h3 & _ & H).
  apply bind_inv in H as (c2 & h4 & _ & H).
  case_decide; [done|].
  apply bind_inv in H as (rc & h5 & _ & H).
  apply bind_inv in H as (cc & h6 & _ & H).
  apply bind_inv in H as (id & h7 & _ & H).
  revert H. apply map_shared. intros v x y.
  apply read_only_bind; [apply read_only_get|].
  intros; apply read_only_ret.
Qed.

(** ** Contents of a matrix and store extension *)

Lemma contents_Some h m A :
  contents h m = Some A ↔
  ∃ d, dataH h !! Matrix.data m = Some d ∧
       Forall2 (fun a l => rowsH h !! a = Some l) d A.
Proof.
  unfold contents. rewrite bind_Some.
  by setoid_rewrite mapM_Some.
Qed.

Lemma extends_refl h : extends h h.
Proof. by split. Qed.

Lemma extends_trans h1 h2 h3 : extends h1 h2 → extends h2 h3 → extends h1 h3.
Proof. intros [??] [??]. split; by etrans. Qed.

Lemma contents_extends h h' m A :
  extends h h' → contents h m = Some A → contents h' m = Some A.
Proof.
  intros [Hr Hd]. rewrite !contents_Some. intros (d & Hm & Hall).
  exists d. split; [exact (lookup_weaken _ _ _ _ Hm Hd)|].
  eapply Forall2_impl; [done|]. intros a l Ha.
  exact (lookup_weaken _ _ _ _ Ha Hr).
Qed.

Lemma rowCount_contents h m A :
  contents h m = Some A → Matrix.rowCount m h = Val (length A) h.
Proof.
  rewrite contents_Some. intros (d & Hd & Hall).
  unfold Matrix.rowCount.
  rewrite (bind_step _ _ _ _ _ (read_data_run _ _ _ Hd)).
  by rewrite (Forall2_length _ _ _ Hall).
Qed.

Lemma columnCount_contents h m A l :
  contents h m = Some A → A !! 0 = Some l →
  Matrix.columnCount m h = Val (length l) h.
Proof.
  rewrite contents_Some. intros (d & Hd & Hall) Hl.
  unfold Matrix.columnCount.
  rewrite (bind_step _ _ _ _ _ (read_data_run _ _ _ Hd)).
  destruct (Forall2_lookup_r _ _ _ _ _ Hall Hl) as (a & -> & Ha).
  by rewrite (bind_step _ _ _ _ _ (read_row_run _ _ _ Ha)).
Qed.

Lemma columnCount_no_rows h m :
  contents h m = Some [] →
  Matrix.columnCount m h =
    Exn (TypeError "Cannot read properties of undefined"%string).
Proof.
  rewrite contents_Some. intros (d & Hd & Hall).
  apply Forall2_nil_inv_r in Hall as ->.
  unfold Matrix.columnCount.
  by rewrite (bind_step _ _ _ _ _ (read_data_run _ _ _ Hd)).
Qed.

Lemma peek_contents h m A r c :
  contents h m = Some A →
  peek h m r c =
    match A !! r with
    | None => inr (RangeError "Out of bounds"%string)
    | Some l => match l !! c with
                | None => inr (RangeError "Out of bounds"%string)
                | Some v => inl v
                end
    end.
Proof.
  rewrite contents_Some. intros (d & Hd & Hall).
  unfold peek. rewrite Hd.
  destruct (A !! r) as [l|] eqn:Er.
  - destruct (Forall2_lookup_r _ _ _ _ _ Hall Er) as (a & -> & ->). done.
  - apply lookup_ge_None in Er. rewrite <- (Forall2_length _ _ _ Hall) in Er.
    by rewrite (lookup_ge_None_2 _ _ Er).
Qed.

(** ** [row] hands out the stored array, [column] a new one *)

Lemma row_run h m d n :
  dataH h !! Matrix.data m = Some d → Matrix.row m n h = Val (d !! n) h.
Proof.
  intros Hd. unfold Matrix.row.
  by rewrite (bind_step _ _ _ _ _ (read_data_run _ _ _ Hd)).
Qed.

Lemma row_inv h m n a h' :
  Matrix.row m n h = Val (Some a) h' →
  h' = h ∧ ∃ d, dataH h !! Matrix.data m = Some d ∧ d !! n = Some a.
Proof.
  unfold Matrix.row. intros H.
  apply bind_inv in H as (d & h1 & Hd & H).
  unfold read_data in Hd.
  destruct (dataH h !! Matrix.data m) as [d'|] eqn:Ed; [|done].
  injection Hd as <- <-. injection H as H <-.
  split; [done|]. by exists d'.
Qed.

Lemma assign_run h a l i v :
  rowsH h !! a = Some l →
  assign a i v h =
    Val tt (Heap (<[a := array_set l i (Some v)]> (rowsH h)) (dataH h) (mults h)).
Proof.
  intros Ha. unfold assign.
  by rewrite (bind_step _ _ _ _ _ (read_row_run _ _ _ Ha)).
Qed.

Lemma assign_inv h a i v u h' :
  assign a i v h = Val u h' →
  ∃ l, rowsH h !! a = Some l ∧
       h' = Heap (<[a := array_set l i (Some v)]> (rowsH h)) (dataH h) (mults h).
Proof.
  unfold assign. intros H.
  apply bind_inv in H as (l & h1 & Hl & H).
  unfold read_row in Hl. destruct (rowsH h !! a) as [l'|] eqn:Ea; [|done].
  injection Hl as <- <-. injection H as _ <-. by exists l'.
Qed.

(** Writing through the reference that [row(n)] returned is a write into
    row [n] of the matrix. *)
Lemma row_alias h m n a h1 c v u h2 :
  Matrix.row m n h = Val (Some a) h1 →
  assign a c v h1 = Val u h2 →
  Matrix.get m n c h2 = Val (Some v) h2.
Proof.
  intros Hrow Hw.
  apply row_inv in Hrow as (-> & d & Hd & Hn).
  apply assign_inv in Hw as (l & Ha & ->).
  eapply get_run; simpl; eauto.
  - apply lookup_insert_eq.
  - apply array_set_lookup.
Qed.

Lemma collect_column h d A c :
  Forall2 (fun a l => rowsH h !! a = Some l) d A →
  collect d (fun x => let* l := read_row x in ret (index l c)) h =
    Val ((fun l => index l c) <$> A) h.
Proof.
  induction 1 as [|a l d A Ha _ IH]; simpl; [done|].
  unfold bind at 1.
  rewrite (bind_step _ _ _ _ _ (read_row_run _ _ _ Ha)). unfold ret at 1.
  by rewrite (bind_step _ _ _ _ _ IH).
Qed.

Lemma fresh_row h : rowsH h !! fresh (dom (rowsH h)) = None.
Proof. apply not_elem_of_dom, is_fresh. Qed.

Lemma fresh_data h : dataH h !! fresh (dom (dataH h)) = None.
Proof. apply not_elem_of_dom, is_fresh. Qed.

(** [column(n)] returns an array that did not exist before the call and
    holds cell [n] of every row; a write into it reaches no cell of the
    matrix. *)
Lemma column_copy h m A n :
  contents h m = Some A →
  ∃ b h1,
    Matrix.column m n h = Val b h1 ∧
    rowsH h !! b = None ∧
    rowsH h1 !! b = Some ((fun l => index l n) <$> A) ∧
    ∀ i v, ∃ h2,
      assign b i v h1 = Val tt h2 ∧
      ∀ r c, result (Matrix.get m r c h2) = result (Matrix.get m r c h).
Proof.
  intros HA. pose proof HA as (d & Hd & Hall)%contents_Some.
  exists (fresh (dom (rowsH h))). eexists. split; [|split; [|split]].
  - unfold Matrix.column.
    rewrite (bind_step _ _ _ _ _ (read_data_run _ _ _ Hd)).
    rewrite (bind_step _ _ _ _ _ (collect_column _ _ _ n Hall)).
    reflexivity.
  - apply fresh_row.
  - simpl. apply lookup_insert_eq.
  - intros i v. eexists. split.
    + apply assign_run. simpl. apply lookup_insert_eq.
    + intros r c. rewrite !result_get. f_equal.
      unfold peek; simpl. rewrite Hd.
      destruct (d !! r) as [a|] eqn:Er; [|done].
      destruct (Forall2_lookup_l _ _ _ _ _ Hall Er) as (l & _ & Ha).
      assert (a ≠ fresh (dom (rowsH h))) as Hne.
      { intros ->. by rewrite fresh_row in Ha. }
      by rewrite !lookup_insert_ne.
Qed.

(** ** [multiply] computes the product into new arrays *)

Ltac step H := rewrite (bind_step _ _ _ _ _ H).

Lemma contents_from h m : contents h (Matrix.from (Matrix.Like m)) = contents h m.
Proof. reflexivity. Qed.

Lemma row_of_contents h m A r l :
  contents h m = Some A → A !! r = Some l → Matrix.row_of m r h = Val l h.
Proof.
  rewrite contents_Some. intros (d & Hd & Hall) Hl.
  unfold Matrix.row_of. step (read_data_run _ _ _ Hd).
  destruct (Forall2_lookup_r _ _ _ _ _ Hall Hl) as (a & -> & Ha).
  by apply read_row_run.
Qed.

Lemma accumulate_run (l : list nat) acc term (g : nat → float) h :
  (∀ i, i ∈ l → term i h = Val (g i) h) →
  Matrix.accumulate l acc term h =
    Val (foldl (fun acc i => (acc + g i)%float) acc l) h.
Proof.
  revert acc. induction l as [|i l IH]; intros acc Hterm; simpl; [done|].
  step (Hterm i (list_elem_of_here _ _)).
  apply IH. intros j Hj. apply Hterm. by apply list_elem_of_further.
Qed.

Lemma collect_pure {A B} (l : list A) (f : A → M B) (g : A → B) h :
  (∀ x, x ∈ l → f x h = Val (g x) h) →
  collect l f h = Val (g <$> l) h.
Proof.
  induction l as [|x l IH]; intros Hf; simpl; [done|].
  step (Hf x (list_elem_of_here _ _)).
  rewrite (bind_step _ _ _ _ _ (IH (fun y Hy => Hf y (list_elem_of_further _ _ _ Hy)))).
  done.
Qed.

Lemma product_cell_run h this matrix A B ac r c ra :
  contents h this = Some A → contents h matrix = Some B →
  A !! r = Some ra → ac ≤ length B →
  Matrix.product_cell this matrix ac r c h = Val (dot ra B ac c) h.
Proof.
  intros HA HB Hr Hac. unfold Matrix.product_cell, dot.
  apply (accumulate_run _ _ _
           (fun i => (to_number (index ra i) * to_number (index (B !!! i) c))%float)).
  intros i Hi%elem_of_seq.
  step (row_of_contents _ _ _ _ _ HA Hr).
  destruct (lookup_lt_is_Some_2 B i) as [rb Hrb]; [lia|].
  step (row_of_contents _ _ _ _ _ HB Hrb).
  by rewrite (list_lookup_total_correct _ _ _ Hrb).
Qed.

(** The row of the product that belongs to row [ra] of the left operand. *)
Lemma mmul_rows A B :
  mmul A B =
    (fun ra => (fun c => Some (dot ra B (length (A !!! 0)) c))
                 <$> seq 0 (length (B !!! 0))) <$> A.
Proof. reflexivity. Qed.

Lemma fmap_lookup_total_seq {X Y} `{Inhabited X} (f : X → Y) (l : list X) :
  (fun r => f (l !!! r)) <$> seq 0 (length l) = f <$> l.
Proof.
  apply list_eq. intros i. rewrite !list_lookup_fmap.
  destruct (decide (i < length l)) as [Hi|Hi].
  - rewrite lookup_seq_lt by done. simpl.
    destruct (lookup_lt_is_Some_2 l i Hi) as [x Hx].
    by rewrite Hx, (list_lookup_total_correct _ _ _ Hx).
  - rewrite lookup_seq_ge by lia. by rewrite lookup_ge_None_2 by lia.
Qed.

Lemma alloc_row_extends h l :
  extends h (Heap (<[fresh (dom (rowsH h)) := l]> (rowsH h)) (dataH h) (mults h)).
Proof.
  split; simpl; [|done]. apply insert_subseteq, fresh_row.
Qed.

(** The row loop of [multiply], started in any store [h1] that still
    holds both operands. *)
Lemma multiply_rows this matrix A B ac bc (rs : list nat) h1 :
  contents h1 this = Some A → contents h1 matrix = Some B →
  ac ≤ length B → (∀ r, r ∈ rs → r < length A) →
  ∃ refs h2,
    collect rs (fun r =>
      let* cells := collect (seq 0 bc) (fun c =>
        let* x := Matrix.product_cell this matrix ac r c in ret (Some x)) in
      alloc_row cells) h1 = Val refs h2 ∧
    extends h1 h2 ∧ dataH h2 = dataH h1 ∧ mults h2 = mults h1 ∧
    Forall2 (fun a l => rowsH h2 !! a = Some l) refs
      ((fun r => (fun c => Some (dot (A !!! r) B ac c)) <$> seq 0 bc) <$> rs).
Proof.
  revert h1. induction rs as [|r rs IH]; intros h1 HA HB Hac Hrs.
  - exists [], h1. simpl. by repeat split.
  - destruct (lookup_lt_is_Some_2 A r) as [ra Hra].
    { apply Hrs, list_elem_of_here. }
    pose proof (alloc_row_extends h1
      ((fun c => Some (dot ra B ac c)) <$> seq 0 bc)) as Hext.
    set (h1' := Heap _ _ _) in Hext.
    destruct (IH h1') as (refs & h2 & Hrun & Hext2 & Hd2 & Hm2 & Hall).
    { by eapply contents_extends. }
    { by eapply contents_extends. }
    { done. }
    { intros r' Hr'. by apply Hrs, list_elem_of_further. }
    exists (fresh (dom (rowsH h1)) :: refs), h2. split; [|split; [|split; [|split]]].
    + simpl. unfold bind at 1. unfold bind at 1.
      rewrite (collect_pure _ _ (fun c => Some (dot ra B ac c))).
      2:{ intros c _. by step (product_cell_run _ _ _ _ _ _ r c _ HA HB Hra Hac). }
      unfold alloc_row. fold h1'. by step Hrun.
    + by eapply extends_trans.
    + by rewrite Hd2.
    + by rewrite Hm2.
    + rewrite fmap_cons. constructor; [|done].
      rewrite (list_lookup_total_correct _ _ _ Hra).
      apply (lookup_weaken (rowsH h1')); [apply lookup_insert_eq|apply Hext2].
Qed.

(** [multiply] on operands whose shapes fit: it returns, the new matrix
    holds the product, the store has only grown, and one multiplication
    has been counted. *)
Lemma multiply_spec h this matrix A B la :
  contents h this = Some A → contents h matrix = Some B →
  A !! 0 = Some la → length la = length B → B ≠ [] →
  ∃ m' h',
    Matrix.multiply this (Matrix.Like matrix) h = Val m' h' ∧
    contents h' m' = Some (mmul A B) ∧
    extends h h' ∧ mults h' = S (mults h).
Proof.
  intros HA HB Hla Hlen HBne.
  destruct B as [|lb B']; [done|]. set (B := lb :: B') in *.
  assert (B !! 0 = Some lb) as Hlb by done.
  destruct (multiply_rows this matrix A B (length la) (length lb)
              (seq 0 (length A)) h HA HB) as (refs & h2 & Hrun & Hext & Hd & Hm & Hall).
  { lia. }
  { intros r Hr%elem_of_seq. lia. }
  eexists _, _. split; [|split; [|split]].
  - unfold Matrix.multiply.
    step (columnCount_contents _ _ _ _ HA Hla).
    step (rowCount_contents _ (Matrix.from (Matrix.Like matrix)) _ HB).
    rewrite decide_False by (intros Hne; by apply Hne).
    step (rowCount_contents _ _ _ HA).
    step (columnCount_contents _ _ _ _ HA Hla).
    step (columnCount_contents _ (Matrix.from (Matrix.Like matrix)) _ _ HB Hlb).
    unfold bind at 1. simpl Matrix.from. unfold Matrix.construct.
    replace (Matrix.Build (Matrix.data matrix)) with matrix by (by destruct matrix).
    rewrite Hrun. reflexivity.
  - apply contents_Some. simpl. eexists. split; [apply lookup_insert_eq|].
    rewrite mmul_rows, (list_lookup_total_correct _ _ _ Hla).
    rewrite (list_lookup_total_correct _ _ _ Hlb).
    by rewrite (fmap_lookup_total_seq
      (fun ra => (fun c => Some (dot ra B (length la) c)) <$> seq 0 (length lb)) A)
      in Hall.
  - split; simpl; [apply Hext|].
    rewrite Hd. apply insert_subseteq, fresh_data.
  - simpl. by rewrite Hm.
Qed.

(** ** [pow] *)

Lemma mmul_length A B : length (mmul A B) = length A.
Proof. unfold mmul. by rewrite length_fmap. Qed.

Lemma mmul_row0 A B la :
  A !! 0 = Some la →
  ∃ l, mmul A B !! 0 = Some l ∧ length l = length (B !!! 0).
Proof.
  intros Hla. unfold mmul. rewrite list_lookup_fmap, Hla. simpl.
  eexists. split; [done|]. by rewrite length_fmap, length_seq.
Qed.

Lemma square_row0 A : square A → ∃ l, A !! 0 = Some l ∧ length l = length A ∧ A ≠ [].
Proof. intros (l & Hl & Hlen). exists l. by destruct A. Qed.

Lemma mpow_shape A k :
  square A →
  length (mpow A k) = length A ∧
  ∃ l, mpow A k !! 0 = Some l ∧ length l = length A.
Proof.
  intros HA. destruct (square_row0 A HA) as (la & Hla & Hlen & _).
  induction k as [|k [IHlen (l & Hl & Hll)]]; simpl.
  - split; [done|]. by exists la.
  - split; [by rewrite mmul_length|].
    destruct (mmul_row0 (mpow A k) A l Hl) as (l' & Hl' & Hlen').
    exists l'. split; [done|].
    by rewrite Hlen', (list_lookup_total_correct _ _ _ Hla).
Qed.

(** One pass through the body of the loop of [pow]. *)
Lemma pow_body h this id A j :
  square A → contents h this = Some A → contents h id = Some (mpow A j) →
  ∃ id' h',
    Matrix.multiply id (Matrix.Like this) h = Val id' h' ∧
    contents h' id' = Some (mpow A (S j)) ∧
    contents h' this = Some A ∧
    extends h h' ∧ mults h' = S (mults h).
Proof.
  intros HA Hthis Hid.
  destruct (square_row0 A HA) as (la & Hla & Hlen & Hne).
  destruct (mpow_shape A j HA) as (_ & l & Hl & Hll).
  destruct (multiply_spec h id this (mpow A j) A l Hid Hthis Hl) as
    (id' & h' & Hrun & Hc & Hext & Hm); [congruence|done|].
  exists id', h'. repeat split; try done; [by eapply contents_extends|apply Hext..].
Qed.

(** With [amount = k + 1] for a natural number [k], the loop runs its body
    [k] times and stops; [k + 1] units of fuel suffice. *)
Lemma pow_loop_positive this A :
  square A →
  ∀ k fuel j id h,
    k < fuel → contents h this = Some A → contents h id = Some (mpow A j) →
    ∃ m' h',
      Matrix.pow_loop fuel this id (Z.of_nat (S k)) h = Val m' h' ∧
      contents h' m' = Some (mpow A (j + k)) ∧
      contents h' this = Some A ∧
      mults h' = mults h + k ∧
      (k = 0 → m' = id ∧ h' = h).
Proof.
  intros HA. induction k as [|k IH]; intros fuel j id h Hfuel Hthis Hid;
    (destruct fuel as [|fuel]; [lia|]); cbn [Matrix.pow_loop].
  - rewrite decide_True by lia. exists id, h.
    rewrite Nat.add_0_r. by repeat split.
  - rewrite decide_False by lia.
    destruct (pow_body h this id A j HA Hthis Hid) as
      (id' & h1 & Hrun & Hid' & Hthis' & _ & Hm).
    step Hrun.
    replace (Z.of_nat (S (S k)) - 1)%Z with (Z.of_nat (S k)) by lia.
    destruct (IH fuel (S j) id' h1) as (m' & h' & Hloop & Hc & Ht & Hm' & _);
      [lia|done|done|].
    exists m', h'. rewrite Hloop.
    replace (j + S k) with (S j + k) by lia.
    repeat split; try done; lia.
Qed.

(** With [amount <= 0] the counter moves away from 0: every unit of fuel
    is spent on one more multiplication and the loop is never left. *)
Lemma pow_loop_nonpositive this A :
  square A →
  ∀ fuel amount j id h,
    (amount ≤ 0)%Z → contents h this = Some A → contents h id = Some (mpow A j) →
    ∃ h', Matrix.pow_loop fuel this id amount h = Fuel h' ∧
          mults h' = mults h + fuel.
Proof.
  intros HA. induction fuel as [|fuel IH]; intros amount j id h Hle Hthis Hid;
    cbn [Matrix.pow_loop].
  - exists h. split; [done|lia].
  - rewrite decide_False by lia.
    destruct (pow_body h this id A j HA Hthis Hid) as
      (id' & h1 & Hrun & Hid' & Hthis' & _ & Hm).
    step Hrun.
    destruct (IH (amount - 1)%Z (S j) id' h1) as (h' & Hloop & Hm');
      [lia|done|done|].
    exists h'. split; [done|lia].
Qed.

Lemma pow_enters_loop h this A fuel amount :
  contents h this = Some A → square A →
  Matrix.pow fuel this amount h = Matrix.pow_loop fuel this this amount h.
Proof.
  intros Hthis (l & Hl & Hlen). unfold Matrix.pow.
  step (rowCount_contents _ _ _ Hthis).
  step (columnCount_contents _ _ _ _ Hthis Hl).
  by rewrite decide_False by lia.
Qed.

Lemma bind_ret_r {A} (m : M A) h : bind m ret h = m h.
Proof. unfold bind, ret. by destruct (m h). Qed.

(** ** [determinant] *)

Lemma bind_exn {A B} (m : M A) (k : A → M B) h e :
  m h = Exn e → bind m k h = Exn e.
Proof. unfold bind. by intros ->. Qed.

(** A matrix without rows never reaches the [switch]: the squareness test
    reads [columnCount], which fails. *)
Lemma determinant_no_rows h m :
  contents h m = Some [] →
  Matrix.determinant m h =
    Exn (TypeError "Cannot read properties of undefined"%string).
Proof.
  intros Hm. unfold Matrix.determinant.
  step (rowCount_contents _ _ _ Hm).
  by apply bind_exn, columnCount_no_rows.
Qed.

Lemma determinant_not_square h m A l :
  contents h m = Some A → A !! 0 = Some l → length l ≠ length A →
  Matrix.determinant m h = Exn (RangeError "Matrix must be square"%string).
Proof.
  intros Hm Hl Hne. unfold Matrix.determinant.
  step (rowCount_contents _ _ _ Hm).
  step (columnCount_contents _ _ _ _ Hm Hl).
  by rewrite decide_True by congruence.
Qed.

Lemma get_contents h m A r c l v :
  contents h m = Some A → A !! r = Some l → l !! c = Some v →
  Matrix.get m r c h = Val v h.
Proof.
  intros Hm Hr Hc. rewrite get_peek, (peek_contents _ _ _ _ _ Hm), Hr, Hc. done.
Qed.

Lemma determinant_size_1 h m v :
  contents h m = Some [[v]] → Matrix.determinant m h = Val v h.
Proof.
  intros Hm. unfold Matrix.determinant.
  step (rowCount_contents _ _ _ Hm).
  step (columnCount_contents _ _ _ [v] Hm eq_refl).
  rewrite decide_False by (simpl; lia).
  step (rowCount_contents _ _ _ Hm). simpl.
  by apply (get_contents _ _ _ _ _ [v] v Hm).
Qed.

Lemma determinant_size_2 h m a b c d r0 r1 :
  contents h m = Some [a :: b :: r0; c :: d :: r1] →
  length r0 = 0 →
  Matrix.determinant m h =
    Val (Some (to_number a * to_number d - to_number b * to_number c)%float) h.
Proof.
  intros Hm Hr0. unfold Matrix.determinant.
  step (rowCount_contents _ _ _ Hm).
  step (columnCount_contents _ _ _ (a :: b :: r0) Hm eq_refl).
  rewrite decide_False by (simpl; lia).
  step (rowCount_contents _ _ _ Hm). simpl.
  step (get_contents _ _ _ 0 0 _ a Hm eq_refl eq_refl).
  step (get_contents _ _ _ 1 1 _ d Hm eq_refl eq_refl).
  step (get_contents _ _ _ 0 1 _ b Hm eq_refl eq_refl).
  step (get_contents _ _ _ 1 0 _ c Hm eq_refl eq_refl).
  done.
Qed.

(** [new Matrix([[1, 2], [3, 4]])] in the initial store is [m22] in
    [store22]. *)
Lemma literal_22 :
  Matrix.literal [[1; 2]; [3; 4]]%float init = Val m22 store22.
Proof. vm_compute. reflexivity. Qed.

Lemma literal_example_22 :
  ∃ m h, Matrix.literal [[1; 2]; [3; 4]]%float init = Val m h ∧
         Matrix.determinant m h = Val (Some (-2)%float) h.
Proof. eexists _, _. split; vm_compute; reflexivity. Qed.

Lemma literal_example_5 :
  ∃ m h, Matrix.literal [[5]]%float init = Val m h ∧
         Matrix.determinant m h = Val (Some 5%float) h.
Proof. eexists _, _. split; vm_compute; reflexivity. Qed.

(** ** What [map] returns

    [map] on a receiver with cells [A], at least one row, and no row
    shorter than row 0, with a callback that computes [f] and writes
    nothing: it returns, and every row of the result shows the callback's
    values for the last row of the receiver. *)

Lemma map_store_extends h n l : extends h (map_store h n l).
Proof.
  split; simpl; apply insert_subseteq; [apply fresh_row|apply fresh_data].
Qed.

Lemma map_store_contents h n l :
  contents (map_store h n l) (Matrix.Build (fresh (dom (dataH h)))) =
    Some (replicate n l).
Proof.
  apply contents_Some. exists (replicate n (fresh (dom (rowsH h)))).
  split; [apply lookup_insert_eq|].
  apply Forall2_replicate. apply lookup_insert_eq.
Qed.

Section map_run.
Variables (h : heap) (this : Matrix.t) (A : list (list value)) (l0 : list value).
Variables (callback : value → nat → nat → M float) (f : value → nat → nat → float).
Hypothesis Hthis : contents h this = Some A.
Hypothesis Hrow0 : A !! 0 = Some l0.
Hypothesis Hwide : ∀ l, l ∈ A → length l0 ≤ length l.
Hypothesis Hcb : ∀ v x y h',
  extends h h' → x < length A → y < length l0 →
  callback v x y h' = Val (f v x y) h'.

Local Abbreviation n := (length A).
Local Abbreviation cc := (length l0).
Local Abbreviation id := (Matrix.Build (fresh (dom (dataH h)))).

Lemma map_store_put l x y w :
  x < n → y < length l →
  Matrix.put id x y w (map_store h n l) =
    Val id (map_store h n (<[y := Some w]> l)).
Proof.
  intros Hx Hy.
  erewrite put_run; simpl; [|apply lookup_insert_eq|by apply lookup_replicate_2
                             |apply lookup_insert_eq|done].
  unfold map_store. by rewrite insert_insert_eq.
Qed.

Lemma map_store_get l x y :
  x < n → y < cc →
  Matrix.get this x y (map_store h n l) =
    Val ((A !!! x) !!! y) (map_store h n l).
Proof.
  intros Hx Hy.
  destruct (lookup_lt_is_Some_2 A x Hx) as [lx Hlx].
  assert (length l0 ≤ length lx) as Hlen.
  { apply Hwide. by eapply list_elem_of_lookup_2. }
  destruct (lookup_lt_is_Some_2 lx y) as [v Hv]; [lia|].
  rewrite (list_lookup_total_correct _ _ _ Hlx).
  rewrite (list_lookup_total_correct _ _ _ Hv).
  eapply get_contents; [|done..].
  eapply contents_extends; [apply map_store_extends|done].
Qed.

(** The loop over the columns of row [x], from column [y] on. *)
Lemma map_columns x k : ∀ y l,
  x < n → length l = cc → y + k = cc →
  for_each (seq y k) (fun y =>
    let* v := Matrix.get this x y in
    let* w := callback v x y in
    Matrix.put id x y w >> ret tt) (map_store h n l) =
  Val tt (map_store h n (take y l ++ drop y (map_row f A cc x))).
Proof.
  induction k as [|k IH]; intros y l Hx Hl Hy; cbn [for_each seq].
  - unfold ret. do 2 f_equal.
    rewrite take_ge, drop_ge, app_nil_r by
      (unfold map_row; rewrite ?length_fmap, ?length_seq; lia).
    done.
  - unfold bind at 1.
    step (map_store_get l x y Hx ltac:(lia)).
    step (Hcb ((A !!! x) !!! y) x y _ (map_store_extends h n l) Hx ltac:(lia)).
    step (map_store_put l x y (f ((A !!! x) !!! y) x y) Hx ltac:(lia)).
    unfold ret at 1.
    rewrite IH by (rewrite ?length_insert; lia).
    do 2 f_equal.
    assert (map_row f A cc x !! y = Some (Some (f ((A !!! x) !!! y) x y))) as Hy'.
    { unfold map_row. rewrite list_lookup_fmap, lookup_seq_lt by lia. done. }
    rewrite (@drop_S value _ _ _ Hy').
    rewrite (@take_S_r value _ _ (Some (f ((A !!! x) !!! y) x y))).
    2:{ apply list_lookup_insert_eq. lia. }
    rewrite take_insert_ge by lia. by rewrite <- app_assoc.
Qed.

(** The loop over the rows, from row [x] on: when it has a row to visit,
    the shared row array ends up with the values for the last row. *)
Lemma map_rows k : ∀ x l,
  x + k = n → length l = cc →
  for_each (seq x k) (fun x =>
    let* c := Matrix.columnCount this in
    for_upto c (fun y =>
      let* v := Matrix.get this x y in
      let* w := callback v x y in
      Matrix.put id x y w >> ret tt)) (map_store h n l) =
  Val tt (map_store h n
            (match k with 0 => l | S _ => map_row f A cc (n - 1) end)).
Proof.
  induction k as [|k IH]; intros x l Hx Hl; cbn [for_each seq]; [done|].
  assert (contents (map_store h n l) this = Some A) as Hc.
  { eapply contents_extends; [apply map_store_extends|done]. }
  unfold bind at 1.
  step (columnCount_contents _ _ _ _ Hc Hrow0).
  unfold for_upto. rewrite (map_columns x cc 0 l ltac:(lia) Hl eq_refl).
  rewrite take_0, drop_0. simpl app.
  rewrite IH; [|lia|by unfold map_row; rewrite length_fmap, length_seq].
  destruct k; [|done]. do 3 f_equal. lia.
Qed.

Lemma map_spec :
  Matrix.map this callback h =
    Val id (map_store h n (map_row f A cc (n - 1))).
Proof.
  unfold Matrix.map.
  step (rowCount_contents _ _ _ Hthis).
  step (columnCount_contents _ _ _ _ Hthis Hrow0).
  step (empty_run n cc h). unfold Matrix.forEach.
  fold (map_store h n (replicate cc (Some 0%float))).
  assert (contents (map_store h n (replicate cc (Some 0%float))) this = Some A) as Hc.
  { eapply contents_extends; [apply map_store_extends|done]. }
  unfold bind at 1. step (rowCount_contents _ _ _ Hc).
  unfold for_upto at 1.
  step (map_rows n 0 (replicate cc (Some 0%float)) eq_refl (length_replicate _ _)).
  unfold ret. destruct A; [done|]. done.
Qed.

End map_run.

(** [scalar(k)] returns a matrix of the receiver's dimensions in which
    every row is [k] times the last row of the receiver. *)
Lemma scalar_spec h this A l0 k :
  contents h this = Some A → A !! 0 = Some l0 →
  (∀ l, l ∈ A → length l0 ≤ length l) →
  ∃ m' h',
    Matrix.scalar this k h = Val m' h' ∧
    contents h' this = Some A ∧
    contents h' m' =
      Some (replicate (length A)
              ((fun j => Some (PrimFloat.mul k
                                 (to_number ((A !!! (length A - 1)) !!! j))))
                 <$> seq 0 (length l0))).
Proof.
  intros Hthis Hrow0 Hwide. eexists _, _. split; [|split].
  - unfold Matrix.scalar.
    by apply (map_spec h this A l0 _ (fun content _ _ => (k * to_number content)%float)).
  - eapply contents_extends; [apply map_store_extends|done].
  - apply map_store_contents.
Qed.

(** [identity(size)] for [size >= 1] returns a matrix in which every row
    is the last row of the identity matrix: 0 everywhere but in column
    [size - 1]. *)
Lemma identity_spec h size :
  1 ≤ size →
  ∃ m' h',
    Matrix.identity size h = Val m' h' ∧
    contents h' m' =
      Some (replicate size
              ((fun j => Some (if decide (size - 1 = j) then 1%float else 0%float))
                 <$> seq 0 size)).
Proof.
  intros Hsize. unfold Matrix.identity. step (empty_run size size h).
  fold (map_store h size (replicate size (Some 0%float))).
  set (h0 := map_store h size (replicate size (Some 0%float))).
  assert (contents h0 (Matrix.Build (fresh (dom (dataH h))))
          = Some (replicate size (replicate size (Some 0%float)))) as Hc.
  { apply map_store_contents. }
  eexists _, _. split.
  - apply (map_spec h0 _ _ (replicate size (Some 0%float)) _
             (fun _ x y => if decide (x = y) then 1 else 0)%float Hc).
    + apply lookup_replicate_2. lia.
    + by intros l [-> _]%elem_of_replicate.
    + done.
  - rewrite !length_replicate. apply map_store_contents.
Qed.

(** For [size >= 2] the top-left cell of [identity(size)] is 0. *)
Lemma identity_corner h size :
  2 ≤ size →
  ∃ m' h', Matrix.identity size h = Val m' h' ∧
           Matrix.get m' 0 0 h' = Val (Some 0%float) h'.
Proof.
  intros Hsize. destruct (identity_spec h size) as (m' & h' & Hid & Hc); [lia|].
  exists m', h'. split; [done|].
  eapply get_contents; [done|by apply lookup_replicate_2; lia|].
  rewrite list_lookup_fmap, lookup_seq_lt by lia. simpl.
  by rewrite decide_False by lia.
Qed.

(** ** [add] *)

(** [add] rejects operands whose row counts differ, or whose row counts
    agree and whose column counts differ. *)
Lemma add_dimension_mismatch h this matrix A B la lb :
  contents h this = Some A → contents h matrix = Some B →
  A !! 0 = Some la → B !! 0 = Some lb →
  length A ≠ length B ∨ length la ≠ length lb →
  Matrix.add this (Matrix.Like matrix) h =
    Exn (RangeError "Matricies must be the same size"%string).
Proof.
  intros HA HB Hla Hlb Hne. unfold Matrix.add.
  step (rowCount_contents _ _ _ HA).
  step (rowCount_contents _ (Matrix.from (Matrix.Like matrix)) _ HB).
  case_decide as Hrows; [done|].
  step (columnCount_contents _ _ _ _ HA Hla).
  step (columnCount_contents _ (Matrix.from (Matrix.Like matrix)) _ _ HB Hlb).
  case_decide as Hcols; [done|]. destruct Hne; congruence.
Qed.

(** On operands of the same dimensions [add] returns a matrix of those
    dimensions in which every row is [0 +] the last row of the argument;
    no cell of the receiver enters the result. *)
Lemma add_spec h this matrix A B la lb :
  contents h this = Some A → contents h matrix = Some B →
  A !! 0 = Some la → B !! 0 = Some lb →
  length A = length B → length la = length lb →
  (∀ l, l ∈ B → length lb ≤ length l) →
  ∃ m' h',
    Matrix.add this (Matrix.Like matrix) h = Val m' h' ∧
    contents h' m' =
      Some (replicate (length A)
              ((fun j => Some (PrimFloat.add 0
                                 (to_number ((B !!! (length A - 1)) !!! j))))
                 <$> seq 0 (length la))).
Proof.
  intros HA HB Hla Hlb Hrows Hcols Hwide. unfold Matrix.add.
  step (rowCount_contents _ _ _ HA).
  step (rowCount_contents _ (Matrix.from (Matrix.Like matrix)) _ HB).
  rewrite decide_False by (intros Hne; by apply Hne).
  step (columnCount_contents _ _ _ _ HA Hla).
  step (columnCount_contents _ (Matrix.from (Matrix.Like matrix)) _ _ HB Hlb).
  rewrite decide_False by (intros Hne; by apply Hne).
  step (rowCount_contents _ _ _ HA).
  step (columnCount_contents _ _ _ _ HA Hla).
  step (empty_run (length A) (length la) h).
  fold (map_store h (length A) (replicate (length la) (Some 0%float))).
  set (zeros := replicate (length la) (Some 0%float) : list value).
  set (h0 := map_store h (length A) zeros).
  eexists _, _. split.
  - apply (map_spec h0 _ (replicate (length A) zeros) zeros _
             (fun v x y => (to_number v + to_number ((B !!! x) !!! y))%float)).
    + apply map_store_contents.
    + apply lookup_replicate_2.
      destruct A; [done|simpl; lia].
    + by intros l [-> _]%elem_of_replicate.
    + intros v x y h' Hext Hx Hy.
      rewrite length_replicate in Hx. unfold zeros in Hy.
      rewrite length_replicate in Hy.
      destruct (lookup_lt_is_Some_2 B x) as [lx Hlx]; [lia|].
      assert (length lb ≤ length lx) as Hlen.
      { apply Hwide. by eapply list_elem_of_lookup_2. }
      destruct (lookup_lt_is_Some_2 lx y) as [w Hw]; [lia|].
      rewrite (list_lookup_total_correct _ _ _ Hlx).
      rewrite (list_lookup_total_correct _ _ _ Hw).
      erewrite bind_step; [done|].
      apply (get_contents _ (Matrix.from (Matrix.Like matrix)) B x y lx w);
        [|done..].
      eapply contents_extends; [|exact HB].
      eapply extends_trans; [apply map_store_extends|exact Hext].
  - etrans; [apply map_store_contents|].
    rewrite length_replicate. do 2 f_equal. unfold map_row.
    replace (length zeros) with (length la)
      by (unfold zeros; by rewrite length_replicate).
    apply list_fmap_ext.
    intros i j Hj. apply lookup_seq in Hj as [-> Hj]. simpl.
    assert (length A - 1 < length A) by (destruct A; [done|simpl; lia]).
    rewrite (list_lookup_total_correct (replicate (length A) zeros) _ zeros)
      by (by apply lookup_replicate_2).
    by rewrite (list_lookup_total_correct zeros _ (Some 0%float))
      by (by apply lookup_replicate_2).
Qed.

(** ** [addRow] on rows of equal length *)

Lemma heap_eta h : Heap (rowsH h) (dataH h) (mults h) = h.
Proof. by destruct h. Qed.

(** The loop of [addRow] from index [i] on; [l] is the manipulated row as
    it is when the loop reaches [i], [lm] as it was at the start. *)
Lemma addRow_loop h a (lm ls : list value) (k : float) n : ∀ i l,
  i + n = length ls → length l = length ls →
  (∀ j, i ≤ j → l !! j = lm !! j) →
  for_each (seq i n) (fun i =>
    match Some a with
    | None => throw (TypeError "Cannot read properties of undefined"%string)
    | Some a =>
        let* l := read_row a in
        write_row a
          (array_set l i
             (Some (to_number (index l i) +
                    default nan
                      (((fun n => (to_number n * k)%float) <$> ls) !! i))%float))
    end) (Heap (<[a := l]> (rowsH h)) (dataH h) (mults h)) =
  Val tt (Heap (<[a := take i l ++ drop i (row_plus lm ls k)]> (rowsH h))
               (dataH h) (mults h)).
Proof.
  induction n as [|n IH]; intros i l Hi Hl Hsame; cbn [for_each seq].
  - unfold ret. do 3 f_equal.
    rewrite take_ge, drop_ge, app_nil_r by
      (unfold row_plus; rewrite ?length_fmap, ?length_seq; lia).
    done.
  - unfold bind at 1. erewrite bind_step; [|apply read_row_run, lookup_insert_eq].
    unfold write_row at 1. cbn [rowsH dataH mults].
    rewrite insert_insert_eq, array_set_inside by lia.
    rewrite IH; [|lia|by rewrite length_insert|].
    2:{ intros j Hj. rewrite list_lookup_insert_ne by lia. apply Hsame. lia. }
    do 3 f_equal.
    destruct (lookup_lt_is_Some_2 ls i) as [y Hy]; [lia|].
    assert (row_plus lm ls k !! i =
            Some (Some (to_number (index l i) + to_number y * k)%float)) as Hrow.
    { unfold row_plus. rewrite list_lookup_fmap, lookup_seq_lt by lia.
      cbn [fmap option_fmap option_map Nat.add].
      unfold index, value in *. by rewrite Hsame, Hy by lia. }
    rewrite list_lookup_fmap, Hy. cbn [fmap option_fmap option_map default].
    rewrite (@drop_S value _ _ _ Hrow).
    rewrite (@take_S_r value _ _ (Some (to_number (index l i) + to_number y * k)%float)).
    2:{ apply list_lookup_insert_eq. lia. }
    rewrite take_insert_ge by lia. by rewrite <- app_assoc.
Qed.

(** [addRow] writes the new cells into the array of the manipulated row
    and touches nothing else in the store. *)
Lemma addRow_run h m d A manipulated r2 k a lm ls :
  contents h m = Some A → dataH h !! Matrix.data m = Some d →
  d !! manipulated = Some a →
  A !! manipulated = Some lm → A !! r2 = Some ls → length lm = length ls →
  Matrix.addRow m manipulated r2 k h =
    Val tt (Heap (<[a := row_plus lm ls k]> (rowsH h)) (dataH h) (mults h)).
Proof.
  intros HA Hd Ha Hlm Hls Hlen.
  pose proof HA as (d' & Hd' & Hall)%contents_Some.
  assert (d' = d) as -> by congruence.
  destruct (Forall2_lookup_r _ _ _ _ _ Hall Hls) as (b & Hb & Hrb).
  destruct (Forall2_lookup_l _ _ _ _ _ Hall Ha) as (lm' & Hlm' & Hra).
  assert (lm' = lm) as -> by congruence.
  unfold Matrix.addRow.
  step (row_run _ _ _ manipulated Hd). step (row_run _ _ _ r2 Hd).
  rewrite Ha, Hb. step (read_row_run _ _ _ Hrb).
  unfold for_upto. rewrite length_fmap.
  rewrite <- (heap_eta h) at 1. rewrite <- (insert_id (rowsH h) a lm Hra) at 1.
  rewrite (addRow_loop h a lm ls k (length ls) 0 lm); [|lia|done|done].
  by rewrite take_0, drop_0.
Qed.

(** On a matrix whose rows have the length of the source row, [addRow]
    gives each cell of the manipulated row its old value plus the old
    value of the source cell times the factor, and a row kept in another
    array than the manipulated row reads as before. *)
Lemma addRow_spec h m d A manipulated r2 k a lm ls :
  contents h m = Some A → dataH h !! Matrix.data m = Some d →
  d !! manipulated = Some a →
  A !! manipulated = Some lm → A !! r2 = Some ls → length lm = length ls →
  ∃ h',
    Matrix.addRow m manipulated r2 k h = Val tt h' ∧
    (∀ c x y, lm !! c = Some x → ls !! c = Some y →
       Matrix.get m manipulated c h' =
         Val (Some (to_number x + to_number y * k)%float) h') ∧
    (∀ r c, d !! r ≠ Some a →
       result (Matrix.get m r c h') = result (Matrix.get m r c h)).
Proof.
  intros HA Hd Ha Hlm Hls Hlen. eexists. split; [|split].
  - by eapply addRow_run.
  - intros c x y Hx Hy. eapply get_run; simpl; eauto.
    + apply lookup_insert_eq.
    + unfold row_plus. rewrite list_lookup_fmap, lookup_seq_lt.
      * cbn [fmap option_fmap option_map Nat.add].
        unfold index, value in *. by rewrite Hx, Hy.
      * by eapply lookup_lt_Some.
  - intros r c Hr. rewrite !result_get. f_equal. unfold peek; simpl.
    rewrite Hd. destruct (d !! r) as [a'|]; [|done].
    rewrite lookup_insert_ne by congruence. done.
Qed.

(** The example of the driver: on [[1, 2], [3, 4]], adding -2 times row 1
    to row 0 gives [[-5, -6], [3, 4]]. *)
Lemma addRow_example_22 :
  ∃ h', Matrix.addRow m22 0 1 (-2)%float store22 = Val tt h' ∧
        contents h' m22 = Some [[Some (-5); Some (-6)]; [Some 3; Some 4]]%float.
Proof. eexists. apply conj; vm_compute; reflexivity. Qed.

(** * The claims *)

(** C1 (the code departs from it): [put(r, c, v)] is meant to change one
    cell.  On the matrix that [Matrix.empty(2, 1)] returns, in any store,
    cell (1, 0) reads 0, and after [put(0, 0, 5)] the untouched cell (1, 0)
    reads 5. *)
Theorem C1_put_on_empty_matrix_reaches_other_rows (h : heap) :
  ∃ m h1 h2,
    Matrix.empty 2 1 h = Val m h1 ∧
    Matrix.get m 1 0 h1 = Val (Some 0%float) h1 ∧
    Matrix.put m 0 0 5%float h1 = Val m h2 ∧
    Matrix.get m 0 0 h2 = Val (Some 5%float) h2 ∧
    Matrix.get m 1 0 h2 = Val (Some 5%float) h2.
Proof.
  destruct (Matrix.empty 2 1 h) as [m h1| |] eqn:He;
    [|by rewrite empty_run in He..].
  destruct (empty_put_get 2 1 h m h1 0 0 5%float 1 He) as (H0 & h2 & Hput & Hget);
    [lia..|].
  exists m, h1, h2. repeat split; try done.
  by eapply put_get_same.
Qed.

(** C2 (the code departs from it): [add] is meant to return the
    element-wise sum.  [[1]].add([[2]]) returns [[2]], not [[3]]: the
    callback adds the cell of the second operand to a cell of a new empty
    matrix, and the receiver's cells are never read. *)
Theorem C2_add_drops_the_receiver :
  ∃ a h1 b h2 s h3,
    Matrix.literal [[1%float]] init = Val a h1 ∧
    Matrix.literal [[2%float]] h1 = Val b h2 ∧
    Matrix.add a (Matrix.Like b) h2 = Val s h3 ∧
    contents h3 a = Some [[Some 1%float]] ∧
    contents h3 b = Some [[Some 2%float]] ∧
    contents h3 s = Some [[Some 2%float]].
Proof. eexists _, _, _, _, _, _. repeat apply conj; vm_compute; reflexivity. Qed.

(** C3 (the code departs from it): [identity(2)] is [[0, 1], [0, 1]], its
    two rows being one array, so for [M = [[1, 2], [3, 4]]] the product
    [identity(2).multiply(M)] is [[3, 4], [3, 4]] and
    [M.multiply(identity(2))] is [[0, 3], [0, 7]]; neither is [M]. *)
Theorem C3_identity_is_not_neutral :
  ∃ i h1 m h2 p h3 q h4,
    Matrix.identity 2 init = Val i h1 ∧
    Matrix.literal [[1; 2]; [3; 4]]%float h1 = Val m h2 ∧
    Matrix.multiply i (Matrix.Like m) h2 = Val p h3 ∧
    Matrix.multiply m (Matrix.Like i) h3 = Val q h4 ∧
    contents h4 i = Some [[Some 0; Some 1]; [Some 0; Some 1]]%float ∧
    contents h4 m = Some [[Some 1; Some 2]; [Some 3; Some 4]]%float ∧
    contents h4 p = Some [[Some 3; Some 4]; [Some 3; Some 4]]%float ∧
    contents h4 q = Some [[Some 0; Some 3]; [Some 0; Some 7]]%float.
Proof. eexists _, _, _, _, _, _, _, _. repeat apply conj; vm_compute; reflexivity. Qed.

(** C4 (the code departs from it): [scalar(1)] is meant to return a matrix
    equal to the receiver.  For [M = [[1], [2]]] it returns [[2], [2]]:
    both rows of the result are one array, which ends up holding the last
    row written. *)
Theorem C4_scalar_one_is_not_neutral :
  ∃ m h1 m' h2,
    Matrix.literal [[1]; [2]]%float init = Val m h1 ∧
    Matrix.scalar m 1%float h1 = Val m' h2 ∧
    contents h2 m = Some [[Some 1]; [Some 2]]%float ∧
    contents h2 m' = Some [[Some 2]; [Some 2]]%float.
Proof. eexists _, _, _, _. repeat apply conj; vm_compute; reflexivity. Qed.

(** C5: for [rows >= 2] and [columns >= 1] the rows of
    [Matrix.empty(rows, columns)] are one shared array, so a [put] into row
    [r] is read back by [get] from every row [r2]; and every matrix that
    [map] returns, hence every matrix from [identity], [scalar] and [add],
    has one array in all its rows and so reads the same in any two rows.
    [identity(size)] does return such a matrix for every [size >= 1]. *)
Theorem C5_rows_of_empty_share_one_array :
  (∀ rows columns h, 2 ≤ rows → 1 ≤ columns →
     ∃ m h1, Matrix.empty rows columns h = Val m h1 ∧ shared_rows h1 m ∧
       ∀ r c v r2, r < rows → c < columns → r2 < rows →
         ∃ h2, Matrix.put m r c v h1 = Val m h2 ∧
               Matrix.get m r2 c h2 = Val (Some v) h2) ∧
  (∀ this callback h m' h',
     (∀ v x y, read_only (callback v x y)) →
     Matrix.map this callback h = Val m' h' →
     shared_rows h' m' ∧ rows_equal h' m') ∧
  (∀ size h m' h',
     Matrix.identity size h = Val m' h' → shared_rows h' m' ∧ rows_equal h' m') ∧
  (∀ this k h m' h',
     Matrix.scalar this k h = Val m' h' → shared_rows h' m' ∧ rows_equal h' m') ∧
  (∀ this matrix h m' h',
     Matrix.add this matrix h = Val m' h' → shared_rows h' m' ∧ rows_equal h' m') ∧
  (∀ size h, 1 ≤ size →
     ∃ m' h', Matrix.identity size h = Val m' h' ∧
              shared_rows h' m' ∧ rows_equal h' m').
Proof.
  split; [|split; [|split; [|split; [|split]]]].
  - intros rows columns h _ _.
    destruct (Matrix.empty rows columns h) as [m h1| |] eqn:He;
      [|by rewrite empty_run in He..].
    exists m, h1. split; [done|]. split.
    + destruct (empty_shared _ _ _ _ _ He) as (a & Hd & _). by exists rows, a.
    + intros r c v r2 Hr Hc Hr2.
      by destruct (empty_put_get _ _ _ _ _ r c v r2 He) as (_ & h2 & ? & ?);
        [..|exists h2].
  - intros this callback h m' h' Hcb H.
    pose proof (map_shared _ _ _ _ _ Hcb H). auto using shared_rows_equal.
  - intros size h m' h' H.
    pose proof (identity_shared _ _ _ _ H). auto using shared_rows_equal.
  - intros this k h m' h' H.
    pose proof (scalar_shared _ _ _ _ _ H). auto using shared_rows_equal.
  - intros this matrix h m' h' H.
    pose proof (add_shared _ _ _ _ _ H). auto using shared_rows_equal.
  - intros size h Hsize.
    destruct (identity_spec h size Hsize) as (m' & h' & H & _).
    pose proof (identity_shared _ _ _ _ H).
    exists m', h'. auto using shared_rows_equal.
Qed.

Lemma C5_rows_of_empty_share_one_array_witness :
  (∃ m h1, Matrix.empty 2 1 init = Val m h1 ∧ shared_rows h1 m ∧
     ∀ r c v r2, r < 2 → c < 1 → r2 < 2 →
       ∃ h2, Matrix.put m r c v h1 = Val m h2 ∧
             Matrix.get m r2 c h2 = Val (Some v) h2) ∧
  (∃ m' h', Matrix.scalar m22 1%float store22 = Val m' h' ∧
     shared_rows h' m' ∧ rows_equal h' m' ∧
     contents h' m' = Some [[Some 3; Some 4]; [Some 3; Some 4]]%float).
Proof.
  destruct C5_rows_of_empty_share_one_array as (Hempty & Hmap & _).
  split.
  - apply (Hempty 2 1 init); lia.
  - destruct (Matrix.scalar m22 1%float store22) as [m' h'| |] eqn:Hs;
      [|vm_compute in Hs; discriminate Hs..].
    exists m', h'. split; [reflexivity|].
    assert (shared_rows h' m' ∧ rows_equal h' m') as [Hshared Hequal].
    { apply (Hmap m22 (fun content _ _ => ret (1 * to_number content)%float)
               store22 m' h'); [|exact Hs].
      intros v x y. apply read_only_ret. }
    repeat apply conj; [exact Hshared|exact Hequal|].
    vm_compute in Hs. injection Hs as <- <-. vm_compute. reflexivity.
Defined.

(** C6 (the code departs from it): for a square matrix and [amount <= 0],
    [pow(amount)] does not return.  The first [--amount] already yields a
    negative number, which is truthy, and the counter only moves further
    from 0: whatever number [fuel] of loop tests is allowed, [pow] is still
    in its loop after them and has performed [fuel] multiplications. *)
Theorem C6_pow_nonpositive_amount_never_returns h this A amount fuel :
  contents h this = Some A → square A → (amount ≤ 0)%Z →
  ∃ h', Matrix.pow fuel this amount h = Fuel h' ∧
        mults h' = mults h + fuel.
Proof.
  intros Hthis HA Hle. rewrite (pow_enters_loop _ _ _ _ _ Hthis HA).
  by apply (pow_loop_nonpositive this A HA fuel amount 0).
Qed.

Lemma C6_pow_nonpositive_amount_never_returns_witness :
  ∃ h', Matrix.pow 3 m22 0 store22 = Fuel h' ∧ mults h' = mults store22 + 3.
Proof.
  apply (C6_pow_nonpositive_amount_never_returns store22 m22
           [[Some 1; Some 2]; [Some 3; Some 4]]%float 0 3).
  - vm_compute. reflexivity.
  - eexists. split; reflexivity.
  - lia.
Defined.

(** C7 (the code departs from it): [pow(1)] of a square matrix is meant
    to return the matrix unchanged, [pow(2)] to be [M.multiply(M)] and
    [pow(amount)] to multiply [amount - 1] times.  The matrix that
    [Matrix.empty(0, 0)] returns is the square matrix of size 0: it has no
    rows, and its [pow] throws a [TypeError] from the squareness test for
    every exponent, [pow(1)] and [pow(2)] among them, before the loop is
    reached.  No number of tests of the loop condition changes that. *)
Theorem C7_pow_of_size_0_throws (h : heap) (fuel : nat) (amount : Z) :
  ∃ m h1,
    Matrix.empty 0 0 h = Val m h1 ∧
    Matrix.rowCount m h1 = Val 0 h1 ∧
    Matrix.pow fuel m 1 h1 =
      Exn (TypeError "Cannot read properties of undefined"%string) ∧
    Matrix.pow fuel m 2 h1 =
      Exn (TypeError "Cannot read properties of undefined"%string) ∧
    Matrix.pow fuel m amount h1 =
      Exn (TypeError "Cannot read properties of undefined"%string).
Proof.
  destruct (Matrix.empty 0 0 h) as [m h1| |] eqn:He;
    [|by rewrite empty_run in He..].
  assert (contents h1 m = Some []) as Hm.
  { destruct (empty_shared _ _ _ _ _ He) as (a & Hd & _).
    apply contents_Some. exists []. split; [done|constructor]. }
  assert (∀ a, Matrix.pow fuel m a h1 =
            Exn (TypeError "Cannot read properties of undefined"%string))
    as Hpow.
  { intros a. unfold Matrix.pow. step (rowCount_contents _ _ _ Hm).
    by apply bind_exn, columnCount_no_rows. }
  exists m, h1. split; [done|]. split; [apply (rowCount_contents _ _ _ Hm)|].
  split; [|split]; apply Hpow.
Qed.

(** C8 (the code departs from it): the determinant of a matrix of size 0
    is meant to be [NaN].  The matrix that [Matrix.empty(0, 0)] returns has
    no rows, and its [determinant()] throws a [TypeError] from the
    squareness test, before the [switch] is reached. *)
Theorem C8_determinant_of_size_0_throws (h : heap) :
  ∃ m h1,
    Matrix.empty 0 0 h = Val m h1 ∧
    Matrix.rowCount m h1 = Val 0 h1 ∧
    Matrix.determinant m h1 =
      Exn (TypeError "Cannot read properties of undefined"%string).
Proof.
  destruct (Matrix.empty 0 0 h) as [m h1| |] eqn:He;
    [|by rewrite empty_run in He..].
  assert (contents h1 m = Some []) as Hm.
  { destruct (empty_shared _ _ _ _ _ He) as (a & Hd & _).
    apply contents_Some. exists []. split; [done|constructor]. }
  exists m, h1. split; [done|]. split.
  - apply (rowCount_contents _ _ _ Hm).
  - by apply determinant_no_rows.
Qed.

(** C9 (the code departs from it): [addRow] is meant to leave every row
    other than the manipulated one unchanged.  After
    [Matrix.empty(2, 1).put(0, 0, 1)] the matrix reads [[1], [1]];
    [addRow({manipulated: 0, row2: [1, 1]})] then makes it [[2], [2]]:
    row 1, which is not the manipulated row, has changed with row 0. *)
Theorem C9_addRow_reaches_rows_sharing_the_array :
  ∃ m h1 h2 h3,
    Matrix.empty 2 1 init = Val m h1 ∧
    Matrix.put m 0 0 1%float h1 = Val m h2 ∧
    contents h2 m = Some [[Some 1]; [Some 1]]%float ∧
    Matrix.addRow m 0 1 1%float h2 = Val tt h3 ∧
    contents h3 m = Some [[Some 2]; [Some 2]]%float.
Proof. eexists _, _, _, _. repeat apply conj; vm_compute; reflexivity. Qed.

(** C10: [row(n)] returns the row array of the matrix, so a value written
    into the returned array is what [get(n, c)] returns afterwards;
    [column(n)] returns an array that did not exist before, holding cell
    [n] of every row, and after a write into it every [get] on the matrix
    gives what it gave before [column] was called. *)
Theorem C10_row_is_an_alias_column_is_a_copy h m A :
  contents h m = Some A →
  (∀ n, n < length A →
     ∃ a, Matrix.row m n h = Val (Some a) h ∧
       ∀ c v, ∃ h2, assign a c v h = Val tt h2 ∧
                    Matrix.get m n c h2 = Val (Some v) h2) ∧
  (∀ n, ∃ b h1,
     Matrix.column m n h = Val b h1 ∧
     rowsH h !! b = None ∧
     rowsH h1 !! b = Some ((fun l => index l n) <$> A) ∧
     ∀ i v, ∃ h2,
       assign b i v h1 = Val tt h2 ∧
       ∀ r c, result (Matrix.get m r c h2) = result (Matrix.get m r c h)).
Proof.
  intros Hm. split.
  - intros n Hn. pose proof Hm as (d & Hd & Hall)%contents_Some.
    destruct (lookup_lt_is_Some_2 d n) as [a Ha].
    { by rewrite (Forall2_length _ _ _ Hall). }
    destruct (Forall2_lookup_l _ _ _ _ _ Hall Ha) as (l & _ & Hl).
    exists a. assert (Matrix.row m n h = Val (Some a) h) as Hrow.
    { by rewrite (row_run _ _ _ _ Hd), Ha. }
    split; [done|]. intros c v. eexists. split.
    + by apply assign_run.
    + eapply row_alias; [done|]. by apply assign_run.
  - intros n. by apply column_copy.
Qed.

Lemma C10_row_is_an_alias_column_is_a_copy_witness :
  (∃ a, Matrix.row m22 1 store22 = Val (Some a) store22 ∧
     ∀ c v, ∃ h2, assign a c v store22 = Val tt h2 ∧
                  Matrix.get m22 1 c h2 = Val (Some v) h2) ∧
  (∃ b h1,
     Matrix.column m22 1 store22 = Val b h1 ∧
     rowsH store22 !! b = None ∧
     rowsH h1 !! b = Some [Some 2; Some 4]%float ∧
     ∀ i v, ∃ h2,
       assign b i v h1 = Val tt h2 ∧
       ∀ r c, result (Matrix.get m22 r c h2) = result (Matrix.get m22 r c store22)).
Proof.
  destruct (C10_row_is_an_alias_column_is_a_copy store22 m22
              [[Some 1; Some 2]; [Some 3; Some 4]]%float) as (Hrow & Hcol).
  - vm_compute. reflexivity.
  - split.
    + apply (Hrow 1). simpl. lia.
    + apply (Hcol 1).
Defined.

(** * Further properties of the class *)

(** ** Bounds of [get] and [put] *)

Lemma put_out_of_bounds h m A r c v :
  contents h m = Some A →
  (∀ l, A !! r = Some l → length l ≤ c) →
  Matrix.put m r c v h = Exn (RangeError "Out of bounds"%string).
Proof.
  intros (d & Hd & Hall)%contents_Some Hout. unfold Matrix.put.
  step (read_data_run _ _ _ Hd).
  destruct (d !! r) as [a|] eqn:Ha; [|done].
  destruct (Forall2_lookup_l _ _ _ _ _ Hall Ha) as (l & Hl & Hrow).
  step (read_row_run _ _ _ Hrow).
  by rewrite (lookup_ge_None_2 l c (Hout l Hl)).
Qed.

Lemma put_in_bounds h m A r c v l :
  contents h m = Some A → A !! r = Some l → c < length l →
  ∃ h', Matrix.put m r c v h = Val m h' ∧
        Matrix.get m r c h' = Val (Some v) h'.
Proof.
  intros (d & Hd & Hall)%contents_Some Hl Hc.
  destruct (Forall2_lookup_r _ _ _ _ _ Hall Hl) as (a & Ha & Hrow).
  eexists. split; [by eapply put_run|].
  eapply get_run; simpl; eauto.
  - apply lookup_insert_eq.
  - by apply list_lookup_insert_eq.
Qed.

(** On a matrix without shared rows a [put] changes one cell. *)
Lemma put_frame_distinct h m r c v m' h' r2 c2 :
  distinct_rows h m →
  Matrix.put m r c v h = Val m' h' →
  r2 ≠ r ∨ c2 ≠ c →
  result (Matrix.get m' r2 c2 h') = result (Matrix.get m r2 c2 h).
Proof.
  intros (d & Hd & Hnd) Hput Hne.
  eapply put_get_other; [done..|].
  destruct Hne as [Hne|Hne]; [left|by right].
  pose proof Hput as (_ & d' & a & l & Hd' & Hr & _)%put_inv.
  assert (d' = d) as -> by congruence.
  rewrite Hr. intros Hr2. apply Hne. by eapply NoDup_lookup.
Qed.

(** ** [Matrix.empty] and matrices without rows *)

Lemma empty_contents rows columns h :
  ∃ m h',
    Matrix.empty rows columns h = Val m h' ∧
    contents h' m = Some (replicate rows (replicate columns (Some 0%float))) ∧
    extends h h' ∧ mults h' = mults h.
Proof.
  eexists _, _. split; [apply empty_run|].
  fold (map_store h rows (replicate columns (Some 0%float))).
  split; [apply map_store_contents|]. split; [apply map_store_extends|done].
Qed.

Lemma map_no_rows h m callback :
  contents h m = Some [] →
  Matrix.map m callback h =
    Exn (TypeError "Cannot read properties of undefined"%string).
Proof.
  intros Hm. unfold Matrix.map. step (rowCount_contents _ _ _ Hm).
  by apply bind_exn, columnCount_no_rows.
Qed.

Lemma forEach_no_rows h m callback :
  contents h m = Some [] → Matrix.forEach m callback h = Val m h.
Proof.
  intros Hm. unfold Matrix.forEach. by step (rowCount_contents _ _ _ Hm).
Qed.

Lemma pow_no_rows h m fuel amount :
  contents h m = Some [] →
  Matrix.pow fuel m amount h =
    Exn (TypeError "Cannot read properties of undefined"%string).
Proof.
  intros Hm. unfold Matrix.pow. step (rowCount_contents _ _ _ Hm).
  by apply bind_exn, columnCount_no_rows.
Qed.

Lemma multiply_no_rows h m matrix :
  contents h m = Some [] →
  Matrix.multiply m matrix h =
    Exn (TypeError "Cannot read properties of undefined"%string).
Proof.
  intros Hm. unfold Matrix.multiply.
  by apply bind_exn, columnCount_no_rows.
Qed.

Lemma identity_0 h :
  Matrix.identity 0 h =
    Exn (TypeError "Cannot read properties of undefined"%string).
Proof.
  destruct (empty_contents 0 0 h) as (m & h' & He & Hc & _).
  unfold Matrix.identity. step He. by apply map_no_rows.
Qed.

(** ** Arrays created in a loop are new and pairwise distinct *)

Lemma collect_ext {X Y} (l : list X) (f g : X → M Y) :
  (∀ x h, f x h = g x h) → ∀ h, collect l f h = collect l g h.
Proof.
  intros Hfg. induction l as [|x l IH]; intros h; simpl; [done|].
  unfold bind. rewrite Hfg. destruct (g x h) as [y h'| |]; [|done..].
  by rewrite IH.
Qed.

(** A loop that computes a row and stores it in a new array, for every
    element of [xs]; [P] is what the computation of the rows needs of
    the store, and holds on however many arrays have been added. *)
Lemma collect_alloc {X} (P : heap → Prop) (F : X → M (list value))
    (g : X → list value) (xs : list X) :
  (∀ h l, P h →
     P (Heap (<[fresh (dom (rowsH h)) := l]> (rowsH h)) (dataH h) (mults h))) →
  (∀ x h, x ∈ xs → P h → F x h = Val (g x) h) →
  ∀ h1, P h1 →
  ∃ refs h2,
    collect xs (fun x => let* cells := F x in alloc_row cells) h1 = Val refs h2 ∧
    P h2 ∧ extends h1 h2 ∧ dataH h2 = dataH h1 ∧ mults h2 = mults h1 ∧
    Forall2 (fun a l => rowsH h2 !! a = Some l) refs (g <$> xs) ∧
    NoDup refs ∧ (∀ a, a ∈ refs → rowsH h1 !! a = None).
Proof.
  intros HP HF. induction xs as [|x xs IH]; intros h1 Hh1.
  - exists [], h1. simpl.
    repeat apply conj;
      first [done | apply extends_refl | apply Forall2_nil | apply NoDup_nil_2
            | by intros a ?%elem_of_nil].
  - set (a0 := fresh (dom (rowsH h1))).
    set (h1' := Heap (<[a0 := g x]> (rowsH h1)) (dataH h1) (mults h1)).
    destruct IH with (h1 := h1') as
      (refs & h2 & Hrun & HP2 & Hext & Hd & Hm & Hall & Hnd & Hfresh).
    { intros y h Hy. apply HF. by apply list_elem_of_further. }
    { by apply HP. }
    assert (rowsH h1' !! a0 = Some (g x)) as Ha0 by apply lookup_insert_eq.
    exists (a0 :: refs), h2.
    split; [|split; [|split; [|split; [|split; [|split; [|split]]]]]].
    + simpl. unfold bind at 1.
      step (HF x h1 (list_elem_of_here _ _) Hh1).
      unfold alloc_row. fold a0 h1'. by step Hrun.
    + done.
    + eapply extends_trans; [apply alloc_row_extends|done].
    + done.
    + done.
    + rewrite fmap_cons. constructor; [|done].
      exact (lookup_weaken _ _ _ _ Ha0 (proj1 Hext)).
    + constructor; [|done]. intros Hin. apply Hfresh in Hin. congruence.
    + intros a [->|Hin]%elem_of_cons; [apply fresh_row|].
      apply Hfresh in Hin. simpl in Hin.
      by apply lookup_insert_None in Hin as [? _].
Qed.

(** [new Matrix([[..], [..]])]: the matrix holds the given cells, each row
    in an array of its own, and no array that existed is touched. *)
Lemma literal_spec rows h :
  ∃ m h',
    Matrix.literal rows h = Val m h' ∧
    contents h' m = Some ((fun r : list float => Some <$> r) <$> rows) ∧
    distinct_rows h' m ∧ extends h h' ∧ mults h' = mults h.
Proof.
  destruct (collect_alloc (fun _ => True)
              (fun r : list float => ret (Some <$> r))
              (fun r : list float => Some <$> r) rows) with (h1 := h)
    as (refs & h2 & Hrun & _ & Hext & Hd & Hm & Hall & Hnd & _); [done..|].
  eexists _, _. split; [|split; [|split; [|split]]].
  - unfold Matrix.literal.
    rewrite (bind_step _ _ _ refs h2); [reflexivity|].
    rewrite <- Hrun. by apply collect_ext.
  - apply contents_Some. eexists. split; [apply lookup_insert_eq|done].
  - eexists. split; [apply lookup_insert_eq|done].
  - split; simpl; [apply Hext|].
    rewrite Hd. apply insert_subseteq, fresh_data.
  - done.
Qed.

(** [multiply], with everything it guarantees: the product in a matrix
    of its own, whose rows are new arrays, no two of them the same. *)
Lemma multiply_full h this matrix A B la :
  contents h this = Some A → contents h matrix = Some B →
  A !! 0 = Some la → length la = length B → B ≠ [] →
  ∃ m' h' d,
    Matrix.multiply this (Matrix.Like matrix) h = Val m' h' ∧
    contents h' m' = Some (mmul A B) ∧
    extends h h' ∧ mults h' = S (mults h) ∧
    dataH h !! Matrix.data m' = None ∧
    dataH h' !! Matrix.data m' = Some d ∧ NoDup d ∧
    (∀ a, a ∈ d → rowsH h !! a = None) ∧
    dataH h' = <[Matrix.data m' := d]> (dataH h).
Proof.
  intros HA HB Hla Hlen HBne.
  destruct B as [|lb B']; [done|]. set (B := lb :: B') in *.
  assert (B !! 0 = Some lb) as Hlb by done.
  destruct (collect_alloc
              (fun h' => contents h' this = Some A ∧ contents h' matrix = Some B)
              (fun r => collect (seq 0 (length lb)) (fun c =>
                 let* x := Matrix.product_cell this matrix (length la) r c in
                 ret (Some x)))
              (fun r => (fun c => Some (dot (A !!! r) B (length la) c))
                          <$> seq 0 (length lb))
              (seq 0 (length A))) with (h1 := h)
    as (refs & h2 & Hrun & _ & Hext & Hd & Hm & Hall & Hnd & Hfresh).
  { intros h' l [??]. split; (eapply contents_extends; [apply alloc_row_extends|done]). }
  { intros r h' Hr%elem_of_seq [HA' HB'].
    destruct (lookup_lt_is_Some_2 A r) as [ra Hra]; [lia|].
    rewrite (list_lookup_total_correct _ _ _ Hra).
    apply collect_pure. intros c _.
    by step (product_cell_run _ _ _ _ _ _ r c _ HA' HB' Hra (Nat.eq_le_incl _ _ Hlen)). }
  { done. }
  eexists _, _, refs.
  split; [|split; [|split; [|split; [|split; [|split; [|split; [|split]]]]]]].
  - unfold Matrix.multiply.
    step (columnCount_contents _ _ _ _ HA Hla).
    step (rowCount_contents _ (Matrix.from (Matrix.Like matrix)) _ HB).
    rewrite decide_False by (intros Hne; by apply Hne).
    step (rowCount_contents _ _ _ HA).
    step (columnCount_contents _ _ _ _ HA Hla).
    step (columnCount_contents _ (Matrix.from (Matrix.Like matrix)) _ _ HB Hlb).
    rewrite (bind_step _ _ _ refs h2); [reflexivity|].
    simpl Matrix.from. unfold Matrix.construct.
    replace (Matrix.Build (Matrix.data matrix)) with matrix by (by destruct matrix).
    exact Hrun.
  - apply contents_Some. simpl. eexists. split; [apply lookup_insert_eq|].
    rewrite mmul_rows, (list_lookup_total_correct _ _ _ Hla).
    rewrite (list_lookup_total_correct _ _ _ Hlb).
    by rewrite (fmap_lookup_total_seq
      (fun ra => (fun c => Some (dot ra B (length la) c)) <$> seq 0 (length lb)) A)
      in Hall.
  - split; simpl; [apply Hext|].
    rewrite Hd. apply insert_subseteq, fresh_data.
  - simpl. by rewrite Hm.
  - simpl. rewrite Hd. apply fresh_data.
  - simpl. apply lookup_insert_eq.
  - done.
  - done.
  - simpl. by rewrite Hd.
Qed.

(** ** Shape errors of [multiply], [pow] and [determinant] *)

Lemma multiply_mismatch h this matrix A B la :
  contents h this = Some A → contents h matrix = Some B →
  A !! 0 = Some la → length la ≠ length B →
  Matrix.multiply this (Matrix.Like matrix) h =
    Exn (RangeError "Matricies are ineligible for multiplication"%string).
Proof.
  intros HA HB Hla Hne. unfold Matrix.multiply.
  step (columnCount_contents _ _ _ _ HA Hla).
  step (rowCount_contents _ (Matrix.from (Matrix.Like matrix)) _ HB).
  by rewrite decide_True.
Qed.

Lemma pow_not_square h this A la fuel amount :
  contents h this = Some A → A !! 0 = Some la → length la ≠ length A →
  Matrix.pow fuel this amount h =
    Exn (RangeError "Matricies must be square"%string).
Proof.
  intros HA Hla Hne. unfold Matrix.pow.
  step (rowCount_contents _ _ _ HA).
  step (columnCount_contents _ _ _ _ HA Hla).
  by rewrite decide_True by congruence.
Qed.

Lemma determinant_size_ge_3 h m A :
  contents h m = Some A → square A → 3 ≤ length A →
  Matrix.determinant m h = Val (Some 0%float) h.
Proof.
  intros Hm (l & Hl & Hlen) Hsize. unfold Matrix.determinant.
  step (rowCount_contents _ _ _ Hm).
  step (columnCount_contents _ _ _ _ Hm Hl).
  rewrite decide_False by lia.
  step (rowCount_contents _ _ _ Hm).
  by destruct A as [|? [|? [|? ?]]]; simpl in *; try lia.
Qed.

(** ** [multiplyRow] and [permute] *)

Lemma multiplyRow_run h m d r a l k :
  dataH h !! Matrix.data m = Some d → d !! r = Some a →
  rowsH h !! a = Some l →
  Matrix.multiplyRow m r k h =
    Val tt (Heap (<[fresh (dom (rowsH h)) :=
                    (fun v => Some (to_number v * k)%float) <$> l]> (rowsH h))
                 (<[Matrix.data m := <[r := fresh (dom (rowsH h))]> d]> (dataH h))
                 (mults h)).
Proof.
  intros Hd Ha Hl. unfold Matrix.multiplyRow.
  step (row_run _ _ _ r Hd). rewrite Ha.
  step (read_row_run _ _ _ Hl).
  unfold bind, alloc_row, read_data; simpl. by rewrite Hd.
Qed.

Lemma multiplyRow_out_of_range h m A r k :
  contents h m = Some A → length A ≤ r →
  Matrix.multiplyRow m r k h =
    Exn (TypeError "Cannot read properties of undefined"%string).
Proof.
  intros (d & Hd & Hall)%contents_Some Hr. unfold Matrix.multiplyRow.
  step (row_run _ _ _ r Hd).
  rewrite lookup_ge_None_2; [done|].
  by rewrite (Forall2_length _ _ _ Hall).
Qed.

(** [multiplyRow] scales row [r] and no other row, shared arrays or not:
    the scaled cells go into a new array, and every array that existed
    keeps its cells. *)
Lemma multiplyRow_spec h m A r l k :
  contents h m = Some A → A !! r = Some l →
  ∃ h' d b,
    Matrix.multiplyRow m r k h = Val tt h' ∧
    contents h' m =
      Some (<[r := (fun v => Some (to_number v * k)%float) <$> l]> A) ∧
    rowsH h ⊆ rowsH h' ∧
    dataH h' !! Matrix.data m = Some d ∧ d !! r = Some b ∧
    rowsH h !! b = None ∧ (∀ r2, d !! r2 = Some b → r2 = r).
Proof.
  intros HA Hl. pose proof HA as (d & Hd & Hall)%contents_Some.
  destruct (Forall2_lookup_r _ _ _ _ _ Hall Hl) as (a & Ha & Hrow).
  assert (r < length d) as Hr by (by eapply lookup_lt_Some).
  eexists _, _, (fresh (dom (rowsH h))).
  split; [by eapply multiplyRow_run|].
  split; [|split; [|split; [|split; [|split]]]].
  - apply contents_Some. simpl. eexists. split; [apply lookup_insert_eq|].
    apply Forall2_insert; [|apply lookup_insert_eq].
    eapply Forall2_impl; [done|]. intros a' l' Ha'. simpl in Ha'.
    rewrite lookup_insert_ne; [done|].
    intros <-. by rewrite fresh_row in Ha'.
  - simpl. apply insert_subseteq, fresh_row.
  - simpl. apply lookup_insert_eq.
  - by apply list_lookup_insert_eq.
  - apply fresh_row.
  - intros r2 Hr2. destruct (decide (r2 = r)) as [|Hne]; [done|].
    rewrite list_lookup_insert_ne in Hr2 by done.
    destruct (Forall2_lookup_l _ _ _ _ _ Hall Hr2) as (l2 & _ & Hl2).
    simpl in Hl2. by rewrite fresh_row in Hl2.
Qed.

Lemma permute_run h m d r1 r2 a b :
  dataH h !! Matrix.data m = Some d → d !! r1 = Some a → d !! r2 = Some b →
  Matrix.permute m r1 r2 h =
    Val tt (Heap (rowsH h)
                 (<[Matrix.data m := <[r2 := a]> (<[r1 := b]> d)]> (dataH h))
                 (mults h)).
Proof.
  intros Hd Ha Hb. unfold Matrix.permute.
  step (row_run _ _ _ r1 Hd). step (read_data_run _ _ _ Hd).
  rewrite Ha, Hb. unfold bind, write_data, read_data; simpl.
  rewrite lookup_insert_eq. cbn [rowsH dataH mults].
  by rewrite insert_insert_eq.
Qed.

(** [permute] exchanges two rows of the matrix and writes no row array. *)
Lemma permute_spec h m A r1 r2 la lb :
  contents h m = Some A → A !! r1 = Some la → A !! r2 = Some lb →
  ∃ h',
    Matrix.permute m r1 r2 h = Val tt h' ∧
    contents h' m = Some (<[r2 := la]> (<[r1 := lb]> A)) ∧
    rowsH h' = rowsH h.
Proof.
  intros HA Hla Hlb. pose proof HA as (d & Hd & Hall)%contents_Some.
  destruct (Forall2_lookup_r _ _ _ _ _ Hall Hla) as (a & Ha & Hra).
  destruct (Forall2_lookup_r _ _ _ _ _ Hall Hlb) as (b & Hb & Hrb).
  eexists. split; [by eapply permute_run|]. split; [|done].
  apply contents_Some. simpl. eexists. split; [apply lookup_insert_eq|].
  by repeat apply Forall2_insert.
Qed.

Lemma swap_back {X} (d : list X) r1 r2 a b :
  d !! r1 = Some a → d !! r2 = Some b →
  ∃ a' b',
    <[r2 := a]> (<[r1 := b]> d) !! r1 = Some a' ∧
    <[r2 := a]> (<[r1 := b]> d) !! r2 = Some b' ∧
    <[r2 := a']> (<[r1 := b']> (<[r2 := a]> (<[r1 := b]> d))) = d.
Proof.
  intros Ha Hb.
  assert (r1 < length d) by (by eapply lookup_lt_Some).
  assert (r2 < length d) by (by eapply lookup_lt_Some).
  destruct (decide (r1 = r2)) as [->|Hne].
  - assert (a = b) as -> by congruence.
    exists b, b. rewrite !list_insert_insert_eq, !list_insert_id by done.
    auto.
  - exists b, a. split; [|split].
    + rewrite list_lookup_insert_ne by done. by apply list_lookup_insert_eq.
    + apply list_lookup_insert_eq. by rewrite length_insert.
    + apply list_eq. intros i.
      destruct (decide (i = r2)) as [->|Hi2].
      { rewrite list_lookup_insert_eq by (by rewrite !length_insert). done. }
      rewrite list_lookup_insert_ne by done.
      destruct (decide (i = r1)) as [->|Hi1].
      { rewrite list_lookup_insert_eq by (by rewrite !length_insert). done. }
      by rewrite !list_lookup_insert_ne by done.
Qed.

(** A second [permute] of the same two rows undoes the first: the store
    is the one before. *)
Lemma permute_twice h m A r1 r2 :
  contents h m = Some A → r1 < length A → r2 < length A →
  (Matrix.permute m r1 r2 >> Matrix.permute m r1 r2) h = Val tt h.
Proof.
  intros (d & Hd & Hall)%contents_Some Hr1 Hr2.
  rewrite <- (Forall2_length _ _ _ Hall) in Hr1, Hr2.
  destruct (lookup_lt_is_Some_2 d r1 Hr1) as [a Ha].
  destruct (lookup_lt_is_Some_2 d r2 Hr2) as [b Hb].
  destruct (swap_back d r1 r2 a b Ha Hb) as (a' & b' & Ha' & Hb' & Hback).
  step (permute_run _ _ _ _ _ _ _ Hd Ha Hb).
  erewrite permute_run; [|apply lookup_insert_eq|done..]. simpl.
  rewrite insert_insert_eq, Hback, insert_id by done.
  by rewrite heap_eta.
Qed.

(** ** The order in which [forEach] visits the cells *)

Lemma for_each_app {X} (l1 l2 : list X) (body : X → M unit) h :
  for_each (l1 ++ l2) body h = (for_each l1 body >> for_each l2 body) h.
Proof.
  revert h. induction l1 as [|x l1 IH]; intros h; simpl; [done|].
  unfold bind. destruct (body x h) as [u h'| |]; [|done..].
  by rewrite IH.
Qed.

(** Two loops agree when their bodies agree on every store that satisfies
    an invariant [I] of the first body. *)
Lemma for_each_flatten {X Y} (I : heap → Prop) (l : list X)
    (f : X → M unit) (g : Y → M unit) (ψ : X → list Y) :
  (∀ x h, x ∈ l → I h → f x h = for_each (ψ x) g h) →
  (∀ x h u h', x ∈ l → I h → f x h = Val u h' → I h') →
  ∀ h, I h →
    for_each l f h = for_each (l ≫= ψ) g h ∧
    (∀ u h', for_each l f h = Val u h' → I h').
Proof.
  intros Hfg HI. induction l as [|x l IH]; intros h Hh.
  - split; [done|]. by intros u h' [= _ <-].
  - assert (∀ y h0, y ∈ l → I h0 → f y h0 = for_each (ψ y) g h0) as Hfg'.
    { intros y h0 Hy. apply Hfg. by apply list_elem_of_further. }
    assert (∀ y h0 u h', y ∈ l → I h0 → f y h0 = Val u h' → I h') as HI'.
    { intros y h0 u h' Hy. apply HI. by apply list_elem_of_further. }
    specialize (IH Hfg' HI').
    pose proof (Hfg x h (list_elem_of_here _ _) Hh) as Hx.
    pose proof (HI x h) as Hpres.
    change ((x :: l) ≫= ψ) with (ψ x ++ (l ≫= ψ)).
    rewrite for_each_app. simpl. unfold bind. rewrite <- Hx.
    destruct (f x h) as [u h1| |] eqn:Hf; [|done..].
    assert (I h1) as Hh1 by (eapply Hpres; [apply list_elem_of_here|done..]).
    exact (IH h1 Hh1).
Qed.

Lemma for_each_singleton {X} (x : X) (g : X → M unit) h :
  for_each [x] g h = g x h.
Proof.
  simpl. unfold bind, ret. by destruct (g x h) as [[] ?| |].
Qed.

Lemma bind_cong {X Y} (m m' : M X) (k : X → M Y) h :
  m h = m' h → bind m k h = bind m' k h.
Proof. unfold bind. by intros ->. Qed.

Lemma bind_singletons {X Y} (φ : X → Y) (l : list X) :
  l ≫= (fun x => [φ x]) = φ <$> l.
Proof. induction l as [|x l IH]; [done|]. simpl. by f_equal. Qed.

(** [forEach] runs the callback on the cells of [row_major], in that
    order, and returns the receiver; the callback may write to the store
    as long as the receiver keeps its cells. *)
Lemma forEach_row_major h this A l0 callback :
  contents h this = Some A → A !! 0 = Some l0 →
  (∀ l, l ∈ A → length l0 ≤ length l) →
  (∀ v x y h1 u h2, contents h1 this = Some A →
     callback v x y h1 = Val u h2 → contents h2 this = Some A) →
  Matrix.forEach this callback h =
    (for_each (row_major A (length l0)) (fun t => callback t.1.1 t.1.2 t.2)
     >> ret this) h.
Proof.
  intros HA Hl0 Hwide Hcb. unfold Matrix.forEach.
  step (rowCount_contents _ _ _ HA). unfold for_upto at 1, row_major.
  set (I := fun h' => contents h' this = Some A).
  set (g := fun t : value * nat * nat => callback t.1.1 t.1.2 t.2).
  assert (∀ x h1, x ∈ seq 0 (length A) → I h1 →
    for_each (seq 0 (length l0)) (fun y =>
      let* v := Matrix.get this x y in callback v x y) h1 =
    for_each ((fun y => ((A !!! x) !!! y, x, y)) <$> seq 0 (length l0)) g h1 ∧
    ∀ u h', for_each (seq 0 (length l0)) (fun y =>
      let* v := Matrix.get this x y in callback v x y) h1 = Val u h' → I h')
    as Hinner.
  { intros x h1 Hx%elem_of_seq Hh1.
    destruct (lookup_lt_is_Some_2 A x) as [lx Hlx]; [lia|].
    assert (length l0 ≤ length lx) as Hlen.
    { apply Hwide. by eapply list_elem_of_lookup_2. }
    assert (∀ y h2, y ∈ seq 0 (length l0) → I h2 →
      Matrix.get this x y h2 = Val ((A !!! x) !!! y) h2) as Hget.
    { intros y h2 Hy%elem_of_seq Hh2.
      destruct (lookup_lt_is_Some_2 lx y) as [v Hv]; [lia|].
      rewrite (list_lookup_total_correct _ _ _ Hlx).
      rewrite (list_lookup_total_correct _ _ _ Hv).
      by eapply get_contents. }
    destruct (for_each_flatten I (seq 0 (length l0))
      (fun y => let* v := Matrix.get this x y in callback v x y) g
      (fun y => [((A !!! x) !!! y, x, y)])) with (h := h1) as [Heq Hinv].
    - intros y h2 Hy Hh2. rewrite for_each_singleton.
      by step (Hget y h2 Hy Hh2).
    - intros y h2 u h' Hy Hh2. step (Hget y h2 Hy Hh2). by apply Hcb.
    - done.
    - split; [|done]. by rewrite Heq, bind_singletons. }
  destruct (for_each_flatten I (seq 0 (length A))
    (fun x => let* cc := Matrix.columnCount this in
              for_upto cc (fun y =>
                let* v := Matrix.get this x y in callback v x y)) g
    (fun x => (fun y => ((A !!! x) !!! y, x, y)) <$> seq 0 (length l0)))
    with (h := h) as [Heq _].
  - intros x h1 Hx Hh1. step (columnCount_contents _ _ _ _ Hh1 Hl0).
    by apply Hinner.
  - intros x h1 u h' Hx Hh1. step (columnCount_contents _ _ _ _ Hh1 Hl0).
    by apply Hinner.
  - done.
  - apply bind_cong. exact Heq.
Qed.

(** ** [Matrix.from] shares the storage *)

Lemma row_major_elem_of (A : list (list value)) cc v x y :
  (v, x, y) ∈ row_major A cc ↔
  x < length A ∧ y < cc ∧ v = (A !!! x) !!! y.
Proof.
  unfold row_major. rewrite list_elem_of_bind. split.
  - intros (x' & Hy & Hx). apply list_elem_of_fmap in Hy as (y' & Heq & Hy).
    apply elem_of_seq in Hx. apply elem_of_seq in Hy.
    injection Heq as -> -> ->. repeat split; [lia|lia].
  - intros (Hx & Hy & ->). exists x. split.
    + apply list_elem_of_fmap. exists y. split; [done|].
      apply elem_of_seq. lia.
    + apply elem_of_seq. lia.
Qed.

Lemma row_major_NoDup (A : list (list value)) cc :
  NoDup ((fun t : value * nat * nat => (t.1.2, t.2)) <$> row_major A cc).
Proof.
  unfold row_major. generalize (length A). intros n.
  enough (∀ x0, NoDup ((fun t : value * nat * nat => (t.1.2, t.2)) <$>
            (x ← seq x0 n;
             (fun y => ((A !!! x) !!! y, x, y)) <$> seq 0 cc))) as H
    by apply H.
  induction n as [|n IH]; intros x0; [constructor|].
  cbn [seq]. rewrite bind_cons, fmap_app. apply NoDup_app. split; [|split].
  - rewrite <- list_fmap_compose. apply NoDup_fmap_2; [|apply NoDup_seq].
    intros y1 y2 Heq. by injection Heq.
  - intros [x y] H1 H2.
    apply list_elem_of_fmap in H1 as (t1 & Heq1 & H1).
    apply list_elem_of_fmap in H1 as (y1 & -> & _).
    apply list_elem_of_fmap in H2 as (t2 & Heq2 & H2).
    apply list_elem_of_bind in H2 as (x2 & H2 & Hx2).
    apply list_elem_of_fmap in H2 as (y2 & -> & _).
    apply elem_of_seq in Hx2. simpl in Heq1, Heq2.
    injection Heq1 as -> _. injection Heq2 as Hx _. lia.
  - apply IH.
Qed.

Lemma peek_from h m r c : peek h (Matrix.from (Matrix.Like m)) r c = peek h m r c.
Proof. reflexivity. Qed.

Lemma from_shares h m r c v m' h' :
  Matrix.put (Matrix.from (Matrix.Like m)) r c v h = Val m' h' →
  Matrix.get m r c h' = Val (Some v) h'.
Proof.
  intros Hput. pose proof (put_get_same _ _ _ _ _ _ _ Hput) as Hget.
  apply put_inv in Hput as [-> _].
  by rewrite get_peek, peek_from, <- get_peek in Hget.
Qed.

(** ** [addRow] on rows of any lengths *)

Lemma row_plus_length lm ls k : length (row_plus lm ls k) = length ls.
Proof. unfold row_plus. by rewrite length_fmap, length_seq. Qed.

Lemma row_plus_lookup lm ls k i y :
  ls !! i = Some y →
  row_plus lm ls k !! i =
    Some (Some (to_number (index lm i) + to_number y * k)%float).
Proof.
  intros Hy. unfold row_plus.
  rewrite list_lookup_fmap, lookup_seq_lt by (by eapply lookup_lt_Some).
  cbn [fmap option_fmap option_map Nat.add].
  unfold index, value in *. by rewrite Hy.
Qed.

(** One assignment [rowManipulated[i] = ..] of the loop, on the row as the
    loop finds it at index [i]. *)
Lemma array_set_next (lm RP : list value) i v :
  RP !! i = Some v →
  array_set (take i RP ++ drop i lm) i v = take (S i) RP ++ drop (S i) lm.
Proof.
  intros Hv. assert (i < length RP) as Hi by (by eapply lookup_lt_Some).
  assert (length (take i RP) = i) as Hlen by (rewrite length_take; lia).
  rewrite (take_S_r _ _ _ Hv), <- app_assoc. unfold array_set.
  destruct (lm !! i) as [x|] eqn:Hx.
  - rewrite (drop_S _ _ _ Hx).
    rewrite decide_True by (rewrite length_app, Hlen; simpl; lia).
    rewrite insert_app_r_alt by lia. by rewrite Hlen, Nat.sub_diag.
  - apply lookup_ge_None in Hx.
    rewrite !drop_ge, !app_nil_r by lia.
    rewrite decide_False by lia. by rewrite Hlen, Nat.sub_diag.
Qed.

Lemma addRow_loop_any h a (lm ls : list value) (k : float) n : ∀ i,
  i + n = length ls →
  for_each (seq i n) (fun i =>
    match Some a with
    | None => throw (TypeError "Cannot read properties of undefined"%string)
    | Some a =>
        let* l := read_row a in
        write_row a
          (array_set l i
             (Some (to_number (index l i) +
                    default nan
                      (((fun n => (to_number n * k)%float) <$> ls) !! i))%float))
    end)
    (Heap (<[a := take i (row_plus lm ls k) ++ drop i lm]> (rowsH h))
          (dataH h) (mults h)) =
  Val tt (Heap (<[a := row_plus lm ls k ++ drop (length ls) lm]> (rowsH h))
               (dataH h) (mults h)).
Proof.
  induction n as [|n IH]; intros i Hi; cbn [for_each seq].
  - unfold ret. rewrite Nat.add_0_r in Hi. subst i.
    by rewrite take_ge by (by rewrite row_plus_length).
  - unfold bind at 1. erewrite bind_step; [|apply read_row_run, lookup_insert_eq].
    unfold write_row at 1. cbn [rowsH dataH mults].
    rewrite insert_insert_eq.
    destruct (lookup_lt_is_Some_2 ls i) as [y Hy]; [lia|].
    rewrite list_lookup_fmap, Hy.
    cbn [fmap option_fmap option_map default from_option id].
    assert (index (take i (row_plus lm ls k) ++ drop i lm) i = index lm i) as ->.
    { unfold index. rewrite lookup_app_r; rewrite length_take, row_plus_length;
        [|lia]. rewrite lookup_drop. f_equal. f_equal. lia. }
    rewrite (array_set_next lm _ i _ (row_plus_lookup lm ls k i y Hy)).
    apply IH. lia.
Qed.

(** [addRow] on any two rows: the cells that the source row has are added,
    scaled, to the manipulated row, a missing cell of the manipulated row
    counting as [undefined]; the cells past the end of the source row stay;
    no other array is written. *)
Lemma addRow_run_any h m d A manipulated r2 k a lm ls :
  contents h m = Some A → dataH h !! Matrix.data m = Some d →
  d !! manipulated = Some a →
  A !! manipulated = Some lm → A !! r2 = Some ls →
  Matrix.addRow m manipulated r2 k h =
    Val tt (Heap (<[a := row_plus lm ls k ++ drop (length ls) lm]> (rowsH h))
                 (dataH h) (mults h)).
Proof.
  intros HA Hd Ha Hlm Hls.
  pose proof HA as (d' & Hd' & Hall)%contents_Some.
  assert (d' = d) as -> by congruence.
  destruct (Forall2_lookup_r _ _ _ _ _ Hall Hls) as (b & Hb & Hrb).
  destruct (Forall2_lookup_l _ _ _ _ _ Hall Ha) as (lm' & Hlm' & Hra).
  assert (lm' = lm) as -> by congruence.
  unfold Matrix.addRow.
  step (row_run _ _ _ manipulated Hd). step (row_run _ _ _ r2 Hd).
  rewrite Ha, Hb. step (read_row_run _ _ _ Hrb).
  unfold for_upto. rewrite length_fmap.
  rewrite <- (heap_eta h) at 1. rewrite <- (insert_id (rowsH h) a lm Hra) at 1.
  pose proof (addRow_loop_any h a lm ls k (length ls) 0 eq_refl) as Hloop.
  rewrite take_0, drop_0 in Hloop. exact Hloop.
Qed.

Lemma addRow_source_out_of_range h m A manipulated r2 k :
  contents h m = Some A → length A ≤ r2 →
  Matrix.addRow m manipulated r2 k h =
    Exn (TypeError "Cannot read properties of undefined"%string).
Proof.
  intros (d & Hd & Hall)%contents_Some Hr. unfold Matrix.addRow.
  step (row_run _ _ _ manipulated Hd). step (row_run _ _ _ r2 Hd).
  rewrite (lookup_ge_None_2 d r2); [done|].
  by rewrite (Forall2_length _ _ _ Hall).
Qed.

Lemma addRow_manipulated_out_of_range h m A manipulated r2 k ls :
  contents h m = Some A → length A ≤ manipulated → A !! r2 = Some ls →
  Matrix.addRow m manipulated r2 k h =
    match ls with
    | [] => Val tt h
    | _ :: _ => Exn (TypeError "Cannot read properties of undefined"%string)
    end.
Proof.
  intros (d & Hd & Hall)%contents_Some Hr Hls.
  destruct (Forall2_lookup_r _ _ _ _ _ Hall Hls) as (b & Hb & Hrb).
  unfold Matrix.addRow.
  step (row_run _ _ _ manipulated Hd). step (row_run _ _ _ r2 Hd).
  rewrite (lookup_ge_None_2 d manipulated), Hb
    by (by rewrite (Forall2_length _ _ _ Hall)).
  step (read_row_run _ _ _ Hrb). by destruct ls.
Qed.

(** * Properties beyond the claims *)

(** X1: [get(r, c)] returns the cell when [r] is below the number of rows
    and [c] below the length of row [r] itself, and throws
    [RangeError "Out of bounds"] in every other case; the store is as
    before. *)
Theorem X1_get_bounds h m A r c :
  contents h m = Some A →
  Matrix.get m r c h =
    match A !! r with
    | Some l =>
        match l !! c with
        | Some v => Val v h
        | None => Exn (RangeError "Out of bounds"%string)
        end
    | None => Exn (RangeError "Out of bounds"%string)
    end.
Proof.
  intros HA. rewrite get_peek, (peek_contents _ _ _ _ _ HA).
  destruct (A !! r) as [l|]; [|done]. by destruct (l !! c).
Qed.

Lemma X1_get_bounds_witness :
  Matrix.get m22 1 0 store22 = Val (Some 3%float) store22 ∧
  Matrix.get m22 2 0 store22 = Exn (RangeError "Out of bounds"%string) ∧
  Matrix.get m22 0 2 store22 = Exn (RangeError "Out of bounds"%string).
Proof.
  assert (contents store22 m22 = Some cells22) as HA by (vm_compute; reflexivity).
  split; [|split].
  - exact (X1_get_bounds store22 m22 cells22 1 0 HA).
  - exact (X1_get_bounds store22 m22 cells22 2 0 HA).
  - exact (X1_get_bounds store22 m22 cells22 0 2 HA).
Defined.

(** X2: [put(r, c, v)] applies the bounds test of [get]: inside the
    bounds it returns the receiver, the cell then reads [v], and no outer
    array has changed; outside it throws [RangeError "Out of bounds"]. *)
Theorem X2_put_bounds h m A r c v :
  contents h m = Some A →
  (∀ l, A !! r = Some l → c < length l →
     ∃ h', Matrix.put m r c v h = Val m h' ∧
           Matrix.get m r c h' = Val (Some v) h' ∧
           dataH h' = dataH h) ∧
  ((∀ l, A !! r = Some l → length l ≤ c) →
     Matrix.put m r c v h = Exn (RangeError "Out of bounds"%string)).
Proof.
  intros HA. split.
  - intros l Hl Hc.
    destruct (put_in_bounds h m A r c v l HA Hl Hc) as (h' & Hput & Hget).
    exists h'. split; [done|]. split; [done|].
    by eapply keeps_data_put.
  - by apply put_out_of_bounds.
Qed.

Lemma X2_put_bounds_witness :
  (∃ h', Matrix.put m22 1 0 9%float store22 = Val m22 h' ∧
         Matrix.get m22 1 0 h' = Val (Some 9%float) h' ∧
         dataH h' = dataH store22) ∧
  Matrix.put m22 1 2 9%float store22 = Exn (RangeError "Out of bounds"%string).
Proof.
  destruct (X2_put_bounds store22 m22 cells22 1 0 9%float) as [Hin _];
    [vm_compute; reflexivity|].
  destruct (X2_put_bounds store22 m22 cells22 1 2 9%float) as [_ Hout];
    [vm_compute; reflexivity|].
  split.
  - apply (Hin [Some 3%float; Some 4%float]); [reflexivity|simpl; lia].
  - apply Hout. intros l [= <-]. simpl. lia.
Defined.

(** X3: on a matrix no two rows of which are the same array, a [put]
    changes the one cell: every [get] at another row or another column
    gives afterwards what it gave before. *)
Theorem X3_put_changes_one_cell h m r c v m' h' r2 c2 :
  distinct_rows h m →
  Matrix.put m r c v h = Val m' h' →
  r2 ≠ r ∨ c2 ≠ c →
  result (Matrix.get m' r2 c2 h') = result (Matrix.get m r2 c2 h).
Proof. apply put_frame_distinct. Qed.

Lemma X3_put_changes_one_cell_witness :
  result (Matrix.get m22 1 0
            (Heap (<[0 := [Some 9%float; Some 2%float]]> (rowsH store22))
                  (dataH store22) 0)) =
  result (Matrix.get m22 1 0 store22).
Proof.
  apply (X3_put_changes_one_cell store22 m22 0 0 9%float).
  - exists [0; 1]. split; [vm_compute; reflexivity|].
    apply (bool_decide_unpack _). vm_compute. reflexivity.
  - vm_compute. reflexivity.
  - left. lia.
Defined.

(** X4: [new Matrix] on array literals gives a matrix with the cells of
    the literals, each row in an array of its own, and leaves every
    array that existed as it was. *)
Theorem X4_literal_rows_are_separate (rows : list (list float)) (h : heap) :
  ∃ m h',
    Matrix.literal rows h = Val m h' ∧
    contents h' m = Some ((fun r : list float => Some <$> r) <$> rows) ∧
    distinct_rows h' m ∧ extends h h'.
Proof.
  destruct (literal_spec rows h) as (m & h' & ? & ? & ? & ? & _).
  by exists m, h'.
Qed.

(** X5: [Matrix.empty(rows, columns)] returns a matrix of [rows] rows of
    [columns] cells, all 0, and leaves every array that existed as it
    was. *)
Theorem X5_empty_is_all_zero (rows columns : nat) (h : heap) :
  ∃ m h',
    Matrix.empty rows columns h = Val m h' ∧
    contents h' m = Some (replicate rows (replicate columns (Some 0%float))) ∧
    extends h h'.
Proof.
  destruct (empty_contents rows columns h) as (m & h' & ? & ? & ? & _).
  by exists m, h'.
Qed.

(** X6: on a matrix without rows, [rowCount] is 0 and [forEach] returns
    the receiver without a call of the callback, while [columnCount],
    [map], [scalar], [multiply], [determinant] and [pow] throw a
    [TypeError]; [identity(0)] throws it as well. *)
Theorem X6_matrix_without_rows h m :
  contents h m = Some [] →
  let te := TypeError "Cannot read properties of undefined"%string in
  Matrix.rowCount m h = Val 0 h ∧
  (∀ callback, Matrix.forEach m callback h = Val m h) ∧
  Matrix.columnCount m h = Exn te ∧
  (∀ callback, Matrix.map m callback h = Exn te) ∧
  (∀ k, Matrix.scalar m k h = Exn te) ∧
  (∀ matrix, Matrix.multiply m matrix h = Exn te) ∧
  Matrix.determinant m h = Exn te ∧
  (∀ fuel amount, Matrix.pow fuel m amount h = Exn te) ∧
  (∀ h0, Matrix.identity 0 h0 = Exn te).
Proof.
  intros Hm te.
  split; [apply (rowCount_contents _ _ _ Hm)|].
  split; [intros; by apply forEach_no_rows|].
  split; [by apply columnCount_no_rows|].
  split; [intros; by apply map_no_rows|].
  split; [intros; by apply map_no_rows|].
  split; [intros; by apply multiply_no_rows|].
  split; [by apply determinant_no_rows|].
  split; [intros; by apply pow_no_rows|].
  apply identity_0.
Qed.

Lemma X6_matrix_without_rows_witness :
  Matrix.rowCount m0 store_two = Val 0 store_two ∧
  Matrix.determinant m0 store_two =
    Exn (TypeError "Cannot read properties of undefined"%string).
Proof.
  destruct (X6_matrix_without_rows store_two m0) as (H1 & _ & _ & _ & _ & _ & H2 & _).
  - vm_compute. reflexivity.
  - split; [exact H1|exact H2].
Defined.

(** X7: [forEach] calls the callback once for each pair [(x, y)] with [x]
    below the number of rows and [y] below the length of row 0, with the
    cell at [(x, y)] and the pair, in row-major order, and then returns the
    receiver.  No pair occurs twice, and a cell at a column at or past the
    length of row 0, as a longer row has, is not visited: on a receiver
    whose rows all have the length of row 0 these are all its cells, on a
    ragged one they are not.  This holds on a receiver with a row 0 and no
    row shorter than row 0, for a callback that may write to the store as
    long as the receiver keeps its cells. *)
Theorem X7_forEach_is_row_major h this A l0 callback :
  contents h this = Some A → A !! 0 = Some l0 →
  (∀ l, l ∈ A → length l0 ≤ length l) →
  (∀ v x y h1 u h2, contents h1 this = Some A →
     callback v x y h1 = Val u h2 → contents h2 this = Some A) →
  Matrix.forEach this callback h =
    (for_each (row_major A (length l0)) (fun t => callback t.1.1 t.1.2 t.2)
     >> ret this) h ∧
  NoDup ((fun t : value * nat * nat => (t.1.2, t.2)) <$>
           row_major A (length l0)) ∧
  (∀ v x y, (v, x, y) ∈ row_major A (length l0) ↔
     x < length A ∧ y < length l0 ∧ v = (A !!! x) !!! y).
Proof.
  intros HA Hl0 Hwide Hcb. split; [by apply forEach_row_major|]. split.
  - apply row_major_NoDup.
  - apply row_major_elem_of.
Qed.

Lemma X7_forEach_is_row_major_witness :
  Matrix.forEach m_ragged (fun v x y => Matrix.get m_ragged x y >> ret tt)
    store_ragged =
  (for_each [(Some 1%float, 0, 0); (Some 2%float, 1, 0)]
     (fun t => Matrix.get m_ragged t.1.2 t.2 >> ret tt)
   >> ret m_ragged) store_ragged ∧
  ¬ (Some 3%float, 1, 1) ∈ row_major cells_ragged 1.
Proof.
  destruct (X7_forEach_is_row_major store_ragged m_ragged cells_ragged
              [Some 1%float]
              (fun v x y => Matrix.get m_ragged x y >> ret tt))
    as (Hrun & _ & Hin).
  - vm_compute. reflexivity.
  - reflexivity.
  - intros l Hl. apply list_elem_of_In in Hl.
    destruct Hl as [<-|[<-|[]]]; simpl; lia.
  - intros v x y h1 u h2 Hc Hcb.
    assert (h2 = h1) as ->; [|exact Hc].
    revert Hcb. apply read_only_bind; [apply read_only_get|].
    intros w. apply read_only_ret.
  - split; [exact Hrun|].
    intros Hv. apply Hin in Hv. simpl in Hv. lia.
Defined.

(** X8: [map] on a receiver with a row 0 and no row shorter than row 0,
    with a callback that returns [f value x y] and writes nothing: a new
    matrix of the receiver's dimensions is returned, every row of which
    holds the callback's values for the last row of the receiver; the
    receiver keeps its cells. *)
Theorem X8_map_shows_the_last_row h this A l0 callback f :
  contents h this = Some A → A !! 0 = Some l0 →
  (∀ l, l ∈ A → length l0 ≤ length l) →
  (∀ v x y h', extends h h' → x < length A → y < length l0 →
     callback v x y h' = Val (f v x y) h') →
  ∃ m' h',
    Matrix.map this callback h = Val m' h' ∧
    contents h' m' =
      Some (replicate (length A) (map_row f A (length l0) (length A - 1))) ∧
    contents h' this = Some A ∧ dataH h !! Matrix.data m' = None.
Proof.
  intros HA Hl0 Hwide Hcb. eexists _, _. split; [|split; [|split]].
  - by apply (map_spec h this A l0 callback f).
  - apply map_store_contents.
  - eapply contents_extends; [apply map_store_extends|done].
  - apply fresh_data.
Qed.

Lemma X8_map_shows_the_last_row_witness :
  ∃ m' h',
    Matrix.map m22 (fun v x y => ret (to_number v + 1)%float) store22 = Val m' h' ∧
    contents h' m' = Some [[Some 4; Some 5]; [Some 4; Some 5]]%float ∧
    contents h' m22 = Some cells22 ∧ dataH store22 !! Matrix.data m' = None.
Proof.
  apply (X8_map_shows_the_last_row store22 m22 cells22
           [Some 1%float; Some 2%float]
           (fun v x y => ret (to_number v + 1)%float)
           (fun v x y => (to_number v + 1)%float)).
  - vm_compute. reflexivity.
  - reflexivity.
  - intros l Hl. apply list_elem_of_In in Hl.
    destruct Hl as [<-|[<-|[]]]; simpl; lia.
  - reflexivity.
Defined.

(** X9: for [size >= 1], [identity(size)] returns a matrix of [size] rows
    that all read (0, ..., 0, 1): 1 in column [size - 1] and 0 elsewhere
    (for [size = 1] this is [[1]]). *)
Theorem X9_identity_rows h size :
  1 ≤ size →
  ∃ m' h',
    Matrix.identity size h = Val m' h' ∧
    contents h' m' =
      Some (replicate size
              ((fun j => Some (if decide (size - 1 = j) then 1%float else 0%float))
                 <$> seq 0 size)).
Proof. apply identity_spec. Qed.

Lemma X9_identity_rows_witness :
  ∃ m' h',
    Matrix.identity 3 init = Val m' h' ∧
    contents h' m' =
      Some [[Some 0; Some 0; Some 1]; [Some 0; Some 0; Some 1];
            [Some 0; Some 0; Some 1]]%float.
Proof. apply (X9_identity_rows init 3). lia. Defined.

(** X10: [scalar(k)] on a receiver with a row 0 and no row shorter than
    row 0 returns a new matrix of the receiver's dimensions in which every
    row is [k] times the last row of the receiver, and leaves the
    receiver's cells as they were. *)
Theorem X10_scalar_rows h this A l0 k :
  contents h this = Some A → A !! 0 = Some l0 →
  (∀ l, l ∈ A → length l0 ≤ length l) →
  ∃ m' h',
    Matrix.scalar this k h = Val m' h' ∧
    contents h' this = Some A ∧
    contents h' m' =
      Some (replicate (length A)
              ((fun j => Some (PrimFloat.mul k
                                 (to_number ((A !!! (length A - 1)) !!! j))))
                 <$> seq 0 (length l0))).
Proof. apply scalar_spec. Qed.

Lemma X10_scalar_rows_witness :
  ∃ m' h',
    Matrix.scalar m22 10%float store22 = Val m' h' ∧
    contents h' m22 = Some cells22 ∧
    contents h' m' = Some [[Some 30; Some 40]; [Some 30; Some 40]]%float.
Proof.
  apply (X10_scalar_rows store22 m22 cells22 [Some 1%float; Some 2%float]).
  - vm_compute. reflexivity.
  - reflexivity.
  - intros l Hl. apply list_elem_of_In in Hl.
    destruct Hl as [<-|[<-|[]]]; simpl; lia.
Defined.

(** X11: for two matrices that each have a row 0, the second with no row
    shorter than its row 0, [add] throws
    [RangeError "Matricies must be the same size"] exactly when the row
    counts differ or the lengths of the two rows 0 differ. *)
Theorem X11_add_size_test h this matrix A B la lb :
  contents h this = Some A → contents h matrix = Some B →
  A !! 0 = Some la → B !! 0 = Some lb →
  (∀ l, l ∈ B → length lb ≤ length l) →
  Matrix.add this (Matrix.Like matrix) h =
    Exn (RangeError "Matricies must be the same size"%string)
  ↔ length A ≠ length B ∨ length la ≠ length lb.
Proof.
  intros HA HB Hla Hlb Hwide. split.
  - intros Hadd.
    destruct (decide (length A = length B)) as [Hrows|]; [|by left].
    destruct (decide (length la = length lb)) as [Hcols|]; [|by right].
    destruct (add_spec h this matrix A B la lb HA HB Hla Hlb Hrows Hcols Hwide)
      as (m' & h' & Hval & _).
    congruence.
  - by eapply add_dimension_mismatch.
Qed.

Lemma X11_add_size_test_witness :
  Matrix.add m22 (Matrix.Like m12) store_two =
    Exn (RangeError "Matricies must be the same size"%string)
  ↔ 2 ≠ 1 ∨ 2 ≠ 2.
Proof.
  apply (X11_add_size_test store_two m22 m12 cells22
           [[Some 1%float; Some 2%float]]
           [Some 1%float; Some 2%float] [Some 1%float; Some 2%float]).
  - vm_compute. reflexivity.
  - vm_compute. reflexivity.
  - reflexivity.
  - reflexivity.
  - intros l Hl. apply list_elem_of_In in Hl.
    destruct Hl as [<-|[]]; simpl; lia.
Defined.

(** X12: on two matrices of the same dimensions, [add] returns a matrix
    of those dimensions in which every row is [0 +] the last row of the
    argument: the result does not depend on the cells of the receiver. *)
Theorem X12_add_rows h this matrix A B la lb :
  contents h this = Some A → contents h matrix = Some B →
  A !! 0 = Some la → B !! 0 = Some lb →
  length A = length B → length la = length lb →
  (∀ l, l ∈ B → length lb ≤ length l) →
  ∃ m' h',
    Matrix.add this (Matrix.Like matrix) h = Val m' h' ∧
    contents h' m' =
      Some (replicate (length A)
              ((fun j => Some (PrimFloat.add 0
                                 (to_number ((B !!! (length A - 1)) !!! j))))
                 <$> seq 0 (length la))).
Proof. apply add_spec. Qed.

Lemma X12_add_rows_witness :
  ∃ m' h',
    Matrix.add m22 (Matrix.Like m22) store22 = Val m' h' ∧
    contents h' m' = Some [[Some 3; Some 4]; [Some 3; Some 4]]%float.
Proof.
  apply (X12_add_rows store22 m22 m22 cells22 cells22
           [Some 1%float; Some 2%float] [Some 1%float; Some 2%float]).
  - vm_compute. reflexivity.
  - vm_compute. reflexivity.
  - reflexivity.
  - reflexivity.
  - reflexivity.
  - reflexivity.
  - intros l Hl. apply list_elem_of_In in Hl.
    destruct Hl as [<-|[<-|[]]]; simpl; lia.
Defined.

(** A [put] into an array that did not exist in [h] leaves the cells of
    every matrix of [h] as they were. *)
Lemma put_keeps_older_matrix h h' m' r c v m'' h'' d this A :
  extends h h' → dataH h' !! Matrix.data m' = Some d →
  (∀ a, a ∈ d → rowsH h !! a = None) →
  Matrix.put m' r c v h' = Val m'' h'' →
  contents h this = Some A → contents h'' this = Some A.
Proof.
  intros [Hrows Hdata] Hd Hfresh Hput (dt & Hdt & Hall)%contents_Some.
  apply put_inv in Hput as (-> & d' & a & l & Hd' & Ha & Hl & _ & ->).
  assert (d' = d) as -> by congruence.
  assert (rowsH h !! a = None) as Hnew.
  { apply Hfresh. by eapply list_elem_of_lookup_2. }
  apply contents_Some. simpl. exists dt.
  split; [exact (lookup_weaken _ _ _ _ Hdt Hdata)|].
  eapply Forall2_impl; [done|]. intros a' l' Ha'. simpl in Ha'.
  rewrite lookup_insert_ne by congruence.
  exact (lookup_weaken _ _ _ _ Ha' Hrows).
Qed.

(** X13: for a receiver with a row 0 and an argument with at least one
    row, [multiply] throws
    [RangeError "Matricies are ineligible for multiplication"] exactly
    when the length of row 0 of the receiver differs from the number of
    rows of the argument. *)
Theorem X13_multiply_shape_test h this matrix A B la :
  contents h this = Some A → contents h matrix = Some B →
  A !! 0 = Some la → B ≠ [] →
  Matrix.multiply this (Matrix.Like matrix) h =
    Exn (RangeError "Matricies are ineligible for multiplication"%string)
  ↔ length la ≠ length B.
Proof.
  intros HA HB Hla HBne. split.
  - intros Hmul Hlen.
    destruct (multiply_spec h this matrix A B la HA HB Hla Hlen HBne)
      as (m' & h' & Hval & _).
    congruence.
  - by eapply multiply_mismatch.
Qed.

Lemma X13_multiply_shape_test_witness :
  Matrix.multiply m22 (Matrix.Like m12) store_two =
    Exn (RangeError "Matricies are ineligible for multiplication"%string)
  ↔ 2 ≠ 1.
Proof.
  apply (X13_multiply_shape_test store_two m22 m12 cells22
           [[Some 1%float; Some 2%float]] [Some 1%float; Some 2%float]).
  - vm_compute. reflexivity.
  - vm_compute. reflexivity.
  - reflexivity.
  - discriminate.
Defined.

(** X14: when the shapes fit, [multiply] returns a new matrix holding the
    matrix product (cell (r, c) is the sum of [A[r][i] * B[i][c]] over the
    [i] below the length of row 0 of the receiver, added up from 0 in
    ascending order), with as many rows as the receiver and as many
    columns as row 0 of the argument; both operands keep their cells and
    one multiplication is counted. *)
Theorem X14_multiply_is_the_product h this matrix A B la :
  contents h this = Some A → contents h matrix = Some B →
  A !! 0 = Some la → length la = length B → B ≠ [] →
  ∃ m' h',
    Matrix.multiply this (Matrix.Like matrix) h = Val m' h' ∧
    contents h' m' = Some (mmul A B) ∧
    length (mmul A B) = length A ∧
    (∀ row, row ∈ mmul A B → length row = length (B !!! 0)) ∧
    contents h' this = Some A ∧ contents h' matrix = Some B ∧
    mults h' = S (mults h).
Proof.
  intros HA HB Hla Hlen HBne.
  destruct (multiply_spec h this matrix A B la HA HB Hla Hlen HBne)
    as (m' & h' & Hval & Hc & Hext & Hm).
  exists m', h'. split; [done|]. split; [done|].
  split; [apply mmul_length|]. split.
  { intros row (ra & -> & _)%list_elem_of_fmap.
    by rewrite length_fmap, length_seq. }
  split; [by eapply contents_extends|].
  split; [by eapply contents_extends|done].
Qed.

Lemma X14_multiply_is_the_product_witness :
  ∃ m' h',
    Matrix.multiply m22 (Matrix.Like m22) store22 = Val m' h' ∧
    contents h' m' = Some [[Some 7; Some 10]; [Some 15; Some 22]]%float ∧
    length (mmul cells22 cells22) = 2 ∧
    (∀ row, row ∈ mmul cells22 cells22 → length row = 2) ∧
    contents h' m22 = Some cells22 ∧ contents h' m22 = Some cells22 ∧
    mults h' = 1.
Proof.
  apply (X14_multiply_is_the_product store22 m22 m22 cells22 cells22
           [Some 1%float; Some 2%float]).
  - vm_compute. reflexivity.
  - vm_compute. reflexivity.
  - reflexivity.
  - reflexivity.
  - discriminate.
Defined.

(** X15: the matrix that [multiply] returns has every row in a new array
    of its own.  A [put] into it therefore changes the one cell of the
    product and no cell of the operands. *)
Theorem X15_product_rows_are_separate h this matrix A B la :
  contents h this = Some A → contents h matrix = Some B →
  A !! 0 = Some la → length la = length B → B ≠ [] →
  ∃ m' h',
    Matrix.multiply this (Matrix.Like matrix) h = Val m' h' ∧
    distinct_rows h' m' ∧
    ∀ r c v m'' h'',
      Matrix.put m' r c v h' = Val m'' h'' →
      contents h'' this = Some A ∧ contents h'' matrix = Some B ∧
      ∀ r2 c2, r2 ≠ r ∨ c2 ≠ c →
        result (Matrix.get m'' r2 c2 h'') = result (Matrix.get m' r2 c2 h').
Proof.
  intros HA HB Hla Hlen HBne.
  destruct (multiply_full h this matrix A B la HA HB Hla Hlen HBne)
    as (m' & h' & d & Hval & _ & Hext & _ & _ & Hd & Hnd & Hfresh & _).
  exists m', h'. split; [done|].
  assert (distinct_rows h' m') as Hdist by (by exists d).
  split; [done|]. intros r c v m'' h'' Hput.
  split; [by eapply put_keeps_older_matrix|].
  split; [by eapply put_keeps_older_matrix|].
  intros r2 c2 Hne. by eapply put_frame_distinct.
Qed.

Lemma X15_product_rows_are_separate_witness :
  ∃ m' h',
    Matrix.multiply m22 (Matrix.Like m22) store22 = Val m' h' ∧
    distinct_rows h' m' ∧
    ∀ r c v m'' h'',
      Matrix.put m' r c v h' = Val m'' h'' →
      contents h'' m22 = Some cells22 ∧ contents h'' m22 = Some cells22 ∧
      ∀ r2 c2, r2 ≠ r ∨ c2 ≠ c →
        result (Matrix.get m'' r2 c2 h'') = result (Matrix.get m' r2 c2 h').
Proof.
  apply (X15_product_rows_are_separate store22 m22 m22 cells22 cells22
           [Some 1%float; Some 2%float]).
  - vm_compute. reflexivity.
  - vm_compute. reflexivity.
  - reflexivity.
  - reflexivity.
  - discriminate.
Defined.

(** X16: on every square matrix of size 3 or more, [determinant] returns
    0, whatever the cells are. *)
Theorem X16_determinant_from_size_3 h m A :
  contents h m = Some A → square A → 3 ≤ length A →
  Matrix.determinant m h = Val (Some 0%float) h.
Proof. apply determinant_size_ge_3. Qed.

Lemma X16_determinant_from_size_3_witness :
  Matrix.determinant (Matrix.Build 0) store33 = Val (Some 0%float) store33.
Proof.
  apply (X16_determinant_from_size_3 store33 (Matrix.Build 0) cells33).
  - vm_compute. reflexivity.
  - eexists. split; reflexivity.
  - simpl. lia.
Defined.

(** X17: [determinant] throws [RangeError "Matrix must be square"] when
    the length of row 0 differs from the number of rows; on a 1 x 1 matrix
    it returns the cell, and on a 2 x 2 matrix [[a, b], [c, d]] it returns
    [a * d - b * c]; the store is as before. *)
Theorem X17_determinant_small_sizes h m A :
  contents h m = Some A →
  (∀ l, A !! 0 = Some l → length l ≠ length A →
     Matrix.determinant m h = Exn (RangeError "Matrix must be square"%string)) ∧
  (∀ v, A = [[v]] → Matrix.determinant m h = Val v h) ∧
  (∀ a b c d, A = [[a; b]; [c; d]] →
     Matrix.determinant m h =
       Val (Some (to_number a * to_number d - to_number b * to_number c)%float) h).
Proof.
  intros HA. split; [|split].
  - intros l Hl Hne. by eapply determinant_not_square.
  - intros v ->. by apply determinant_size_1.
  - intros a b c d ->. by apply (determinant_size_2 h m a b c d [] []).
Qed.

Lemma X17_determinant_small_sizes_witness :
  Matrix.determinant m12 store_two = Exn (RangeError "Matrix must be square"%string) ∧
  Matrix.determinant m22 store22 = Val (Some (-2)%float) store22.
Proof.
  destruct (X17_determinant_small_sizes store_two m12 [[Some 1%float; Some 2%float]])
    as (Hns & _ & _); [vm_compute; reflexivity|].
  destruct (X17_determinant_small_sizes store22 m22 cells22)
    as (_ & _ & H2); [vm_compute; reflexivity|].
  split.
  - apply (Hns [Some 1%float; Some 2%float]); [reflexivity|simpl; lia].
  - apply (H2 (Some 1%float) (Some 2%float) (Some 3%float) (Some 4%float)).
    reflexivity.
Defined.

(** X18: on a matrix whose row 0 has a length other than the number of
    rows, [pow] throws [RangeError "Matricies must be square"] for every
    exponent, before the loop is entered. *)
Theorem X18_pow_not_square h this A la fuel amount :
  contents h this = Some A → A !! 0 = Some la → length la ≠ length A →
  Matrix.pow fuel this amount h =
    Exn (RangeError "Matricies must be square"%string).
Proof. apply pow_not_square. Qed.

Lemma X18_pow_not_square_witness :
  Matrix.pow 0 m12 0 store_two = Exn (RangeError "Matricies must be square"%string).
Proof.
  apply (X18_pow_not_square store_two m12 [[Some 1%float; Some 2%float]]
           [Some 1%float; Some 2%float]).
  - vm_compute. reflexivity.
  - reflexivity.
  - simpl. lia.
Defined.

(** X19: [multiplyRow(r, k)] on a valid row index replaces row [r] by its
    cells times [k] and changes no other row, also when other rows were
    the same array as row [r]: the scaled cells are in a new array that
    only slot [r] refers to, and every array that existed keeps its
    cells.  With [r] at or past the number of rows it throws a
    [TypeError]. *)
Theorem X19_multiplyRow_scales_one_row h m A r k :
  contents h m = Some A →
  (∀ l, A !! r = Some l →
     ∃ h' d b,
       Matrix.multiplyRow m r k h = Val tt h' ∧
       contents h' m =
         Some (<[r := (fun v => Some (to_number v * k)%float) <$> l]> A) ∧
       rowsH h ⊆ rowsH h' ∧
       dataH h' !! Matrix.data m = Some d ∧ d !! r = Some b ∧
       rowsH h !! b = None ∧ (∀ r2, d !! r2 = Some b → r2 = r)) ∧
  (length A ≤ r →
     Matrix.multiplyRow m r k h =
       Exn (TypeError "Cannot read properties of undefined"%string)).
Proof.
  intros HA. split.
  - intros l Hl. by apply multiplyRow_spec.
  - by apply multiplyRow_out_of_range.
Qed.

Lemma X19_multiplyRow_scales_one_row_witness :
  (∃ h' d b,
     Matrix.multiplyRow m22 1 4%float store22 = Val tt h' ∧
     contents h' m22 = Some [[Some 1; Some 2]; [Some 12; Some 16]]%float ∧
     rowsH store22 ⊆ rowsH h' ∧
     dataH h' !! Matrix.data m22 = Some d ∧ d !! 1 = Some b ∧
     rowsH store22 !! b = None ∧ (∀ r2, d !! r2 = Some b → r2 = 1)) ∧
  Matrix.multiplyRow m22 2 4%float store22 =
    Exn (TypeError "Cannot read properties of undefined"%string).
Proof.
  destruct (X19_multiplyRow_scales_one_row store22 m22 cells22 1 4%float)
    as [Hin _]; [vm_compute; reflexivity|].
  destruct (X19_multiplyRow_scales_one_row store22 m22 cells22 2 4%float)
    as [_ Hout]; [vm_compute; reflexivity|].
  split.
  - apply (Hin [Some 3%float; Some 4%float]). reflexivity.
  - apply Hout. simpl. lia.
Defined.

(** X20: [permute(r1, r2)] on two valid row indices exchanges the two
    rows of the matrix, leaves the other rows in place and writes no row
    array. *)
Theorem X20_permute_exchanges_rows h m A r1 r2 la lb :
  contents h m = Some A → A !! r1 = Some la → A !! r2 = Some lb →
  ∃ h',
    Matrix.permute m r1 r2 h = Val tt h' ∧
    contents h' m = Some (<[r2 := la]> (<[r1 := lb]> A)) ∧
    rowsH h' = rowsH h.
Proof. apply permute_spec. Qed.

Lemma X20_permute_exchanges_rows_witness :
  ∃ h',
    Matrix.permute m22 0 1 store22 = Val tt h' ∧
    contents h' m22 = Some [[Some 3; Some 4]; [Some 1; Some 2]]%float ∧
    rowsH h' = rowsH store22.
Proof.
  apply (X20_permute_exchanges_rows store22 m22 cells22 0 1
           [Some 1%float; Some 2%float] [Some 3%float; Some 4%float]).
  - vm_compute. reflexivity.
  - reflexivity.
  - reflexivity.
Defined.

(** X21: [permute(r1, r2)] done twice on valid row indices gives back the
    store in which the first call started. *)
Theorem X21_permute_twice_restores h m A r1 r2 :
  contents h m = Some A → r1 < length A → r2 < length A →
  (Matrix.permute m r1 r2 >> Matrix.permute m r1 r2) h = Val tt h.
Proof. apply permute_twice. Qed.

Lemma X21_permute_twice_restores_witness :
  (Matrix.permute m22 0 1 >> Matrix.permute m22 0 1) store22 = Val tt store22.
Proof.
  apply (X21_permute_twice_restores store22 m22 cells22 0 1).
  - vm_compute. reflexivity.
  - simpl. lia.
  - simpl. lia.
Defined.

(** X22: [addRow] on two valid row indices, for rows of any lengths.  For
    every column [c] of the source row, cell [c] of the manipulated row
    becomes its old value, or [undefined] if it had none, plus the source
    cell times the factor, the factor being applied to the source cells
    as they were before the call (also when both indices are the same);
    the cells of the manipulated row past the end of the source row, and
    every row kept in another array, read as before. *)
Theorem X22_addRow_cells h m d A manipulated r2 k a lm ls :
  contents h m = Some A → dataH h !! Matrix.data m = Some d →
  d !! manipulated = Some a →
  A !! manipulated = Some lm → A !! r2 = Some ls →
  ∃ h',
    Matrix.addRow m manipulated r2 k h = Val tt h' ∧
    (∀ c y, ls !! c = Some y →
       Matrix.get m manipulated c h' =
         Val (Some (to_number (index lm c) + to_number y * k)%float) h') ∧
    (∀ c, length ls ≤ c →
       result (Matrix.get m manipulated c h') =
       result (Matrix.get m manipulated c h)) ∧
    (∀ r c, d !! r ≠ Some a →
       result (Matrix.get m r c h') = result (Matrix.get m r c h)).
Proof.
  intros HA Hd Ha Hlm Hls.
  pose proof HA as (d' & Hd' & Hall)%contents_Some.
  assert (d' = d) as -> by congruence.
  destruct (Forall2_lookup_l _ _ _ _ _ Hall Ha) as (lm' & Hlm' & Hra).
  assert (lm' = lm) as -> by congruence.
  eexists. split; [by eapply addRow_run_any|]. split; [|split].
  - intros c y Hy. eapply get_run; simpl; eauto.
    + apply lookup_insert_eq.
    + rewrite lookup_app_l by (rewrite row_plus_length; by eapply lookup_lt_Some).
      by apply row_plus_lookup.
  - intros c Hc. rewrite !result_get. f_equal. unfold peek; simpl.
    rewrite Hd, Ha, lookup_insert_eq, Hra.
    rewrite lookup_app_r by (by rewrite row_plus_length).
    rewrite row_plus_length, lookup_drop.
    by replace (length ls + (c - length ls)) with c by lia.
  - intros r c Hr. rewrite !result_get. f_equal. unfold peek; simpl.
    rewrite Hd. destruct (d !! r) as [a'|]; [|done].
    by rewrite lookup_insert_ne by congruence.
Qed.

Lemma X22_addRow_cells_witness :
  ∃ h',
    Matrix.addRow m22 0 1 (-2)%float store22 = Val tt h' ∧
    (∀ c y, [Some 3%float; Some 4%float] !! c = Some y →
       Matrix.get m22 0 c h' =
         Val (Some (to_number (index [Some 1%float; Some 2%float] c)
                    + to_number y * (-2))%float) h') ∧
    (∀ c, 2 ≤ c →
       result (Matrix.get m22 0 c h') = result (Matrix.get m22 0 c store22)) ∧
    (∀ r c, [0; 1] !! r ≠ Some 0 →
       result (Matrix.get m22 r c h') = result (Matrix.get m22 r c store22)).
Proof.
  apply (X22_addRow_cells store22 m22 [0; 1] cells22 0 1 (-2)%float 0
           [Some 1%float; Some 2%float] [Some 3%float; Some 4%float]).
  - vm_compute. reflexivity.
  - vm_compute. reflexivity.
  - reflexivity.
  - reflexivity.
  - reflexivity.
Defined.

(** X23: [addRow] with the source index at or past the number of rows
    throws a [TypeError].  With the manipulated index at or past the
    number of rows it throws a [TypeError] when the source row has a
    cell, and returns with the store unchanged when the source row is
    empty. *)
Theorem X23_addRow_invalid_rows h m A manipulated r2 k :
  contents h m = Some A →
  (length A ≤ r2 →
     Matrix.addRow m manipulated r2 k h =
       Exn (TypeError "Cannot read properties of undefined"%string)) ∧
  (∀ ls, length A ≤ manipulated → A !! r2 = Some ls →
     Matrix.addRow m manipulated r2 k h =
       match ls with
       | [] => Val tt h
       | _ :: _ => Exn (TypeError "Cannot read properties of undefined"%string)
       end).
Proof.
  intros HA. split.
  - by apply addRow_source_out_of_range.
  - intros ls. by apply addRow_manipulated_out_of_range.
Qed.

Lemma X23_addRow_invalid_rows_witness :
  Matrix.addRow m22 0 2 1%float store22 =
    Exn (TypeError "Cannot read properties of undefined"%string) ∧
  Matrix.addRow m22 2 1 1%float store22 =
    Exn (TypeError "Cannot read properties of undefined"%string).
Proof.
  destruct (X23_addRow_invalid_rows store22 m22 cells22 0 2 1%float)
    as [Hsrc _]; [vm_compute; reflexivity|].
  destruct (X23_addRow_invalid_rows store22 m22 cells22 2 1 1%float)
    as [_ Hman]; [vm_compute; reflexivity|].
  split.
  - apply Hsrc. simpl. lia.
  - apply (Hman [Some 3%float; Some 4%float]); [simpl; lia|reflexivity].
Defined.

(** X24: [Matrix.from(m)] does not copy: a cell put through the matrix it
    returns is read by [get] on [m]. *)
Theorem X24_from_shares_the_storage h m r c v m' h' :
  Matrix.put (Matrix.from (Matrix.Like m)) r c v h = Val m' h' →
  Matrix.get m r c h' = Val (Some v) h'.
Proof. apply from_shares. Qed.

Lemma X24_from_shares_the_storage_witness :
  Matrix.get m22 0 0
    (Heap (<[0 := [Some 9%float; Some 2%float]]> (rowsH store22))
          (dataH store22) 0) =
  Val (Some 9%float)
    (Heap (<[0 := [Some 9%float; Some 2%float]]> (rowsH store22))
          (dataH store22) 0).
Proof.
  apply (X24_from_shares_the_storage store22 m22 0 0 9%float
           (Matrix.from (Matrix.Like m22))).
  vm_compute. reflexivity.
Defined.

(** X25: for a square matrix [M] with at least one row (its row count is
    the length of its row 0): [pow(1)] returns [M] itself in an unchanged
    store, so with no multiplication; [pow(2)] is [M.multiply(M)]; and for
    an integer [amount] with [2 <= amount < 2^53], the range in which the
    decrement of the loop counter is exact, [pow(amount)] returns after
    exactly [amount - 1] multiplications a matrix holding the product of
    [amount] copies of [M], and [M] holds what it held.  [amount] tests of
    the loop condition are enough in each case. *)
Theorem X25_pow_repeated_self_multiplication h this A :
  contents h this = Some A → square A →
  (∀ fuel, 1 ≤ fuel → Matrix.pow fuel this 1 h = Val this h) ∧
  (∀ fuel, 2 ≤ fuel →
     Matrix.pow fuel this 2 h = Matrix.multiply this (Matrix.Like this) h) ∧
  (∀ amount fuel, (2 ≤ amount)%Z → (amount < 2 ^ 53)%Z →
     Z.to_nat amount ≤ fuel →
     ∃ m' h',
       Matrix.pow fuel this amount h = Val m' h' ∧
       mults h' = mults h + Z.to_nat (amount - 1) ∧
       contents h' m' = Some (mpow A (Z.to_nat (amount - 1))) ∧
       contents h' this = Some A).
Proof.
  intros Hthis HA. split; [|split].
  - intros fuel Hfuel. rewrite (pow_enters_loop _ _ _ _ _ Hthis HA).
    destruct fuel as [|fuel]; [lia|]. cbn [Matrix.pow_loop].
    by rewrite decide_True by lia.
  - intros fuel Hfuel. rewrite (pow_enters_loop _ _ _ _ _ Hthis HA).
    destruct fuel as [|[|fuel]]; [lia..|]. cbn [Matrix.pow_loop].
    rewrite decide_False by lia.
    rewrite <- (bind_ret_r (Matrix.multiply this (Matrix.Like this)) h).
    unfold bind. by destruct (Matrix.multiply this (Matrix.Like this) h).
  - intros amount fuel Hamount _ Hfuel.
    rewrite (pow_enters_loop _ _ _ _ _ Hthis HA).
    destruct (pow_loop_positive this A HA (Z.to_nat (amount - 1)) fuel 0 this h)
      as (m' & h' & Hloop & Hc & Ht & Hm & _); [lia|done|done|].
    replace (Z.of_nat (S (Z.to_nat (amount - 1)))) with amount in Hloop by lia.
    by exists m', h'.
Qed.

Lemma X25_pow_repeated_self_multiplication_witness :
  ∃ m' h',
    Matrix.pow 3 m22 3 store22 = Val m' h' ∧
    mults h' = mults store22 + 2 ∧
    contents h' m' = Some [[Some 37; Some 54]; [Some 81; Some 118]]%float ∧
    contents h' m22 = Some [[Some 1; Some 2]; [Some 3; Some 4]]%float.
Proof.
  destruct (X25_pow_repeated_self_multiplication store22 m22
              [[Some 1; Some 2]; [Some 3; Some 4]]%float) as (_ & _ & Hpow).
  - vm_compute. reflexivity.
  - eexists. split; reflexivity.
  - apply (Hpow 3%Z 3); lia.
Defined.
